(** * Whispr clone: push-to-talk transcription session

    A shallow embedding of the three source modules of the application:

    - [lib/deepgram.ts]        (client construction, connection parameters),
    - [hooks/useMicrophone.ts] (acquisition and release of the recorder),
    - [App.tsx]                (connection life cycle, audio buffering,
                                transcript assembly, timers, teardown).

    The React component is modelled as a record of its state cells and
    ref cells; every callback of the component is a function on that
    record.  The browser and the SDK (timers, sockets, recorders) are a
    second record, the host, together with a time-stamped log of every
    call the component makes on them.  Asynchronous functions are cut at
    their [await] points, the continuation being run by the event that
    settles the awaited promise. *)

From Stdlib Require Import List String Ascii NArith Arith Bool Lia.
Import ListNotations.
Open Scope string_scope.
Open Scope list_scope.

(** ** JavaScript strings

    A string is a sequence of code units; an [ascii] stands for the code
    unit of the same number (0..255).  [trim] removes the code units that
    ECMAScript calls WhiteSpace or LineTerminator from both ends; below
    256 these are TAB, LF, VT, FF, CR, SP and NBSP. *)
Module Js.

Definition isWhiteSpace (a : ascii) : bool :=
  let n := N_of_ascii a in
  (((9 <=? n) && (n <=? 13)) || (n =? 32) || (n =? 160))%N.

Fixpoint dropWhiteSpace (l : list ascii) : list ascii :=
  match l with
  | [] => []
  | a :: l' => if isWhiteSpace a then dropWhiteSpace l' else l
  end.

Definition trim (s : string) : string :=
  string_of_list_ascii
    (rev (dropWhiteSpace (rev (dropWhiteSpace (list_ascii_of_string s))))).

(** Truthiness of a string value: only the empty string is falsy. *)
Definition truthy (s : string) : bool :=
  match s with EmptyString => false | String _ _ => true end.

(** [x || dflt] where [x] is a string or [undefined]. *)
Definition orElse (x : option string) (dflt : string) : string :=
  match x with
  | Some s => if truthy s then s else dflt
  | None => dflt
  end.

End Js.

(** ** Values exchanged with the host *)

Definition ConnId := nat.
Definition RecorderId := nat.
Definition StreamId := nat.
Definition TimerId := nat.

(** A [Blob] of recorded audio: its byte size and an opaque content tag. *)
Record Blob := mkBlob { size : N; content : N }.

(** The options object passed to [deepgram.listen.live]. *)
Record LiveOptions := mkLiveOptions {
  model : string;
  language : string;
  smart_format : bool
}.

(** The SDK client returned by [createClient(key)]. *)
Record Client := mkClient { clientKey : string }.

(** The message delivered with a "results" event:
    [data.channel?.alternatives[0]?.transcript] and [data.is_final]. *)
Record Alternative := mkAlternative { transcript : option string }.
Record Results := mkResults {
  channel : option (list Alternative);
  is_final : bool
}.

Inductive Status := offline | connecting | online | error_.

Inductive RecState := inactive | recording.

Record Recorder := mkRecorder {
  rstate : RecState;          (* [recorder.state] *)
  rstream : StreamId;         (* the stream it records *)
  ondataavailable : bool      (* has the chunk handler been assigned? *)
}.

(** Calls made on the browser and on the SDK. *)
Inductive Effect :=
| GetUserMedia
| NewMediaRecorder (r : RecorderId) (userStream : StreamId) (mimeType : string)
| RecorderStart (r : RecorderId) (timeslice : N)
| RecorderStop (r : RecorderId)
| TracksStop (userStream : StreamId)
| ListenLive (c : ConnId) (deepgram : Client) (opts : LiveOptions)
| Send (c : ConnId) (chunk : Blob)
| KeepAlive (c : ConnId)
| Finish (c : ConnId)
| SetTimeout (t : TimerId) (ms : N)
| ClearTimeout (t : TimerId)
| SetInterval (t : TimerId) (ms : N)
| ClearInterval (t : TimerId).

(** ** The component *)

(** State cells and ref cells of [App]. *)
Record AppState := mkApp {
  transcription : string;
  interimTranscript : string;
  connectionStatus : Status;
  error : option string;
  connectionRef : option ConnId;
  audioBufferRef : list Blob;
  closeTimeoutRef : option TimerId;
  keepAliveIntervalRef : option TimerId
}.

(** State cells and ref cell of [useMicrophone]. *)
Record MicState := mkMic {
  stream : option StreamId;
  recorder : option RecorderId;
  isRecording : bool;
  mediaStreamRef : option StreamId
}.

(** The host: clock, pending timers, sockets, recorders, pending promises,
    the build-time key, and the log of calls. *)
Record Host := mkHost {
  now : N;                                   (* milliseconds *)
  timeouts : list (TimerId * N);             (* pending [setTimeout]s, with due time *)
  intervals : list TimerId;                  (* running [setInterval]s *)
  readyState : ConnId -> option N;           (* [getReadyState()] of each socket *)
  recorders : RecorderId -> option Recorder;
  awaitingMic : list Status;                 (* [handleStart] calls awaiting [getUserMedia],
                                                each with the [connectionStatus] its closure saw *)
  awaitingOpen : list (ConnId * RecorderId); (* [handleStart] calls awaiting [initConnection] *)
  nextId : nat;                              (* next fresh object identity *)
  DEEPGRAM_API_KEY : option string;
  log : list (N * Effect)
}.

Record State := mkState { app : AppState; mic : MicState; host : Host }.

(** *** Field updates *)

Definition onApp (f : AppState -> AppState) (s : State) : State :=
  mkState (f (app s)) (mic s) (host s).
Definition onMic (f : MicState -> MicState) (s : State) : State :=
  mkState (app s) (f (mic s)) (host s).
Definition onHost (f : Host -> Host) (s : State) : State :=
  mkState (app s) (mic s) (f (host s)).

Definition setTranscription (f : string -> string) : State -> State :=
  onApp (fun a => mkApp (f (transcription a)) (interimTranscript a) (connectionStatus a)
    (error a) (connectionRef a) (audioBufferRef a) (closeTimeoutRef a) (keepAliveIntervalRef a)).
Definition setInterimTranscript (v : string) : State -> State :=
  onApp (fun a => mkApp (transcription a) v (connectionStatus a)
    (error a) (connectionRef a) (audioBufferRef a) (closeTimeoutRef a) (keepAliveIntervalRef a)).
Definition setConnectionStatus (v : Status) : State -> State :=
  onApp (fun a => mkApp (transcription a) (interimTranscript a) v
    (error a) (connectionRef a) (audioBufferRef a) (closeTimeoutRef a) (keepAliveIntervalRef a)).
Definition setError (v : option string) : State -> State :=
  onApp (fun a => mkApp (transcription a) (interimTranscript a) (connectionStatus a)
    v (connectionRef a) (audioBufferRef a) (closeTimeoutRef a) (keepAliveIntervalRef a)).
Definition connectionRef_set (v : option ConnId) : State -> State :=
  onApp (fun a => mkApp (transcription a) (interimTranscript a) (connectionStatus a)
    (error a) v (audioBufferRef a) (closeTimeoutRef a) (keepAliveIntervalRef a)).
Definition audioBufferRef_set (v : list Blob) : State -> State :=
  onApp (fun a => mkApp (transcription a) (interimTranscript a) (connectionStatus a)
    (error a) (connectionRef a) v (closeTimeoutRef a) (keepAliveIntervalRef a)).
Definition closeTimeoutRef_set (v : option TimerId) : State -> State :=
  onApp (fun a => mkApp (transcription a) (interimTranscript a) (connectionStatus a)
    (error a) (connectionRef a) (audioBufferRef a) v (keepAliveIntervalRef a)).
Definition keepAliveIntervalRef_set (v : option TimerId) : State -> State :=
  onApp (fun a => mkApp (transcription a) (interimTranscript a) (connectionStatus a)
    (error a) (connectionRef a) (audioBufferRef a) (closeTimeoutRef a) v).

Definition setStream (v : option StreamId) : State -> State :=
  onMic (fun m => mkMic v (recorder m) (isRecording m) (mediaStreamRef m)).
Definition setRecorder (v : option RecorderId) : State -> State :=
  onMic (fun m => mkMic (stream m) v (isRecording m) (mediaStreamRef m)).
Definition setIsRecording (v : bool) : State -> State :=
  onMic (fun m => mkMic (stream m) (recorder m) v (mediaStreamRef m)).
Definition mediaStreamRef_set (v : option StreamId) : State -> State :=
  onMic (fun m => mkMic (stream m) (recorder m) (isRecording m) v).

Definition now_set (v : N) : State -> State :=
  onHost (fun h => mkHost v (timeouts h) (intervals h) (readyState h) (recorders h)
    (awaitingMic h) (awaitingOpen h) (nextId h) (DEEPGRAM_API_KEY h) (log h)).
Definition timeouts_set (v : list (TimerId * N)) : State -> State :=
  onHost (fun h => mkHost (now h) v (intervals h) (readyState h) (recorders h)
    (awaitingMic h) (awaitingOpen h) (nextId h) (DEEPGRAM_API_KEY h) (log h)).
Definition intervals_set (v : list TimerId) : State -> State :=
  onHost (fun h => mkHost (now h) (timeouts h) v (readyState h) (recorders h)
    (awaitingMic h) (awaitingOpen h) (nextId h) (DEEPGRAM_API_KEY h) (log h)).
Definition readyState_set (c : ConnId) (v : N) : State -> State :=
  onHost (fun h => mkHost (now h) (timeouts h) (intervals h)
    (fun c' => if Nat.eqb c' c then Some v else readyState h c') (recorders h)
    (awaitingMic h) (awaitingOpen h) (nextId h) (DEEPGRAM_API_KEY h) (log h)).
Definition recorders_set (r : RecorderId) (v : Recorder) : State -> State :=
  onHost (fun h => mkHost (now h) (timeouts h) (intervals h) (readyState h)
    (fun r' => if Nat.eqb r' r then Some v else recorders h r')
    (awaitingMic h) (awaitingOpen h) (nextId h) (DEEPGRAM_API_KEY h) (log h)).
Definition awaitingMic_set (v : list Status) : State -> State :=
  onHost (fun h => mkHost (now h) (timeouts h) (intervals h) (readyState h) (recorders h)
    v (awaitingOpen h) (nextId h) (DEEPGRAM_API_KEY h) (log h)).
Definition awaitingOpen_set (v : list (ConnId * RecorderId)) : State -> State :=
  onHost (fun h => mkHost (now h) (timeouts h) (intervals h) (readyState h) (recorders h)
    (awaitingMic h) v (nextId h) (DEEPGRAM_API_KEY h) (log h)).
Definition nextId_set (v : nat) : State -> State :=
  onHost (fun h => mkHost (now h) (timeouts h) (intervals h) (readyState h) (recorders h)
    (awaitingMic h) (awaitingOpen h) v (DEEPGRAM_API_KEY h) (log h)).
Definition log_set (v : list (N * Effect)) : State -> State :=
  onHost (fun h => mkHost (now h) (timeouts h) (intervals h) (readyState h) (recorders h)
    (awaitingMic h) (awaitingOpen h) (nextId h) (DEEPGRAM_API_KEY h) v).

(** Record a call on the host, stamped with the current time. *)
Definition emit (e : Effect) (s : State) : State :=
  log_set (log (host s) ++ [(now (host s), e)]) s.

(** Allocate the identity of a new host object. *)
Definition fresh (s : State) : nat * State :=
  (nextId (host s), nextId_set (S (nextId (host s))) s).

(** ** Host operations *)

Definition removeTimeout (t : TimerId) (l : list (TimerId * N)) : list (TimerId * N) :=
  filter (fun p => negb (Nat.eqb (fst p) t)) l.

Definition removeInterval (t : TimerId) (l : list TimerId) : list TimerId :=
  filter (fun t' => negb (Nat.eqb t' t)) l.

(** [setTimeout(callback, ms)]: a new pending timer, due [ms] from now. *)
Definition setTimeout (ms : N) (s : State) : TimerId * State :=
  let (t, s) := fresh s in
  let s := timeouts_set (timeouts (host s) ++ [(t, now (host s) + ms)%N]) s in
  (t, emit (SetTimeout t ms) s).

Definition clearTimeout (t : TimerId) (s : State) : State :=
  emit (ClearTimeout t) (timeouts_set (removeTimeout t (timeouts (host s))) s).

Definition setInterval (ms : N) (s : State) : TimerId * State :=
  let (t, s) := fresh s in
  let s := intervals_set (intervals (host s) ++ [t]) s in
  (t, emit (SetInterval t ms) s).

Definition clearInterval (t : TimerId) (s : State) : State :=
  emit (ClearInterval t) (intervals_set (removeInterval t (intervals (host s))) s).

(** [deepgram.listen.live(opts)]: a new socket, not yet open. *)
Definition listen_live (deepgram : Client) (opts : LiveOptions) (s : State)
  : ConnId * State :=
  let (c, s) := fresh s in
  (c, emit (ListenLive c deepgram opts) (readyState_set c 0%N s)).

(** [connection.getReadyState() === 1] *)
Definition isOpen (c : ConnId) (s : State) : bool :=
  match readyState (host s) c with
  | Some rs => (rs =? 1)%N
  | None => false
  end.

(** [connectionRef.current?.getReadyState() === 1] *)
Definition connectionReady (s : State) : bool :=
  match connectionRef (app s) with
  | Some c => isOpen c s
  | None => false
  end.

(** ** lib/deepgram.ts *)

(** [getDeepgramClient]: throws (right) when the key is missing or empty. *)
Definition getDeepgramClient (s : State) : Client + string :=
  match DEEPGRAM_API_KEY (host s) with
  | Some k => if Js.truthy k then inl (mkClient k)
              else inr "Missing VITE_DEEPGRAM_API_KEY"
  | None => inr "Missing VITE_DEEPGRAM_API_KEY"
  end.

Definition createTranscriptionConnection (deepgram : Client) (s : State)
  : ConnId * State :=
  listen_live deepgram
    {| model := "nova"; language := "en-US"; smart_format := true |} s.

(** ** hooks/useMicrophone.ts *)

Definition mimeTypes : list string :=
  [ "audio/webm;codecs=opus"; "audio/webm"; "audio/ogg;codecs=opus";
    "audio/mp4"; "audio/wav" ].

(** The loop over [mimeTypes]: first supported type, or the empty string. *)
Fixpoint firstSupported (isTypeSupported : string -> bool) (l : list string) : string :=
  match l with
  | [] => ""
  | type :: l' => if isTypeSupported type then type else firstSupported isTypeSupported l'
  end.

(** [startMicrophone] up to [await getUserMedia({audio: true})]. *)
Definition startMicrophone_request (s : State) : State :=
  emit GetUserMedia s.

(** [startMicrophone] once [getUserMedia] has resolved with [userStream]. *)
Definition startMicrophone_granted (userStream : StreamId)
    (isTypeSupported : string -> bool) (s : State) : RecorderId * State :=
  let supportedType := firstSupported isTypeSupported mimeTypes in
  let (mediaRecorder, s) := fresh s in
  let s := recorders_set mediaRecorder (mkRecorder inactive userStream false) s in
  let s := emit (NewMediaRecorder mediaRecorder userStream supportedType) s in
  let s := mediaStreamRef_set (Some userStream) s in
  let s := setStream (Some userStream) s in
  let s := setRecorder (Some mediaRecorder) s in
  let s := setIsRecording true s in
  (mediaRecorder, s).

Definition recorderStop (r : RecorderId) (s : State) : State :=
  match recorders (host s) r with
  | Some info =>
      emit (RecorderStop r)
        (recorders_set r (mkRecorder inactive (rstream info) (ondataavailable info)) s)
  | None => s
  end.

Definition recorderActive (r : RecorderId) (s : State) : bool :=
  match recorders (host s) r with
  | Some info => match rstate info with inactive => false | recording => true end
  | None => false
  end.

Definition stopMicrophone (s : State) : State :=
  let s := match recorder (mic s) with
           | Some r => if recorderActive r s then recorderStop r s else s
           | None => s
           end in
  let s := match mediaStreamRef (mic s) with
           | Some userStream => emit (TracksStop userStream) s
           | None => s
           end in
  let s := setStream None s in
  let s := setRecorder None s in
  setIsRecording false s.

(** ** App.tsx *)

Definition stopKeepAlive (s : State) : State :=
  match keepAliveIntervalRef (app s) with
  | Some t => keepAliveIntervalRef_set None (clearInterval t s)
  | None => s
  end.

(** The callback given to [setInterval] by [startKeepAlive].  A throwing
    [keepAlive()] is caught and only logged, so the call is total. *)
Definition heartbeat (s : State) : State :=
  match connectionRef (app s) with
  | Some c => if isOpen c s then emit (KeepAlive c) s else s
  | None => s
  end.

Definition startKeepAlive (s : State) : State :=
  let s := stopKeepAlive s in
  let (t, s) := setInterval 5000 s in
  keepAliveIntervalRef_set (Some t) s.

Definition closeConnection (s : State) : State :=
  let s := match connectionRef (app s) with
           | Some c => connectionRef_set None (emit (Finish c) s)
           | None => s
           end in
  let s := setConnectionStatus offline s in
  stopKeepAlive s.

(** [handleResults], registered for "results", "Results" and "transcript". *)
Definition transcriptOf (data : Results) : option string :=
  match channel data with
  | Some (alt :: _) => transcript alt
  | Some [] => None
  | None => None
  end.

Definition handleResults (data : Results) (s : State) : State :=
  match transcriptOf data with
  | Some text =>
      if Js.truthy text then
        if is_final data then
          let s := setTranscription (fun prev => Js.trim (prev ++ " " ++ text)%string) s in
          setInterimTranscript "" s
        else setInterimTranscript text s
      else s
  | None => s
  end.

(** How the promise returned by [initConnection] stands when the call returns. *)
Inductive Settled :=
| Resolved (c : ConnId)
| Rejected (message : option string)
| Pending (c : ConnId).

(** [initConnection]; [seen] is the [connectionStatus] its closure captured. *)
Definition initConnection (seen : Status) (s : State) : Settled * State :=
  match connectionRef (app s), seen with
  | Some c, online => (Resolved c, s)
  | _, _ =>
      let s := setConnectionStatus connecting s in
      let s := setError None s in
      match getDeepgramClient s with
      | inl dg =>
          let (connection, s) := createTranscriptionConnection dg s in
          let s := connectionRef_set (Some connection) s in
          (Pending connection, s)
      | inr message =>
          let s := setConnectionStatus error_ s in
          let s := setError (Some message) s in
          (Rejected (Some message), s)
      end
  end.

(** The "open", "error" and "close" handlers that [initConnection]
    registers, without the settling of the promise. *)
Definition onOpen (s : State) : State :=
  startKeepAlive (setConnectionStatus online s).

Definition onError (s : State) : State :=
  setConnectionStatus error_ (setError (Some "AI Connection Error") s).

Definition onClose (s : State) : State :=
  stopKeepAlive (setConnectionStatus offline s).

(** The flush loop: [shift()] the oldest chunk and [send] it, until empty. *)
Fixpoint flush (c : ConnId) (buffer : list Blob) (s : State) : State :=
  match buffer with
  | [] => audioBufferRef_set [] s
  | chunk :: rest => flush c rest (emit (Send c chunk) (audioBufferRef_set rest s))
  end.

(** [mediaRecorder.ondataavailable] *)
Definition onDataAvailable (data : Blob) (s : State) : State :=
  if (0 <? size data)%N then
    match connectionRef (app s) with
    | Some c =>
        if isOpen c s then
          emit (Send c data) (flush c (audioBufferRef (app s)) s)
        else audioBufferRef_set (audioBufferRef (app s) ++ [data]) s
    | None => audioBufferRef_set (audioBufferRef (app s) ++ [data]) s
    end
  else s.

(** [handleStart] up to [await startMicrophone()]. *)
Definition handleStart_begin (s : State) : State :=
  let s := match closeTimeoutRef (app s) with
           | Some t => closeTimeoutRef_set None (clearTimeout t s)
           | None => s
           end in
  let s := setError None s in
  let s := setInterimTranscript "" s in
  let s := audioBufferRef_set [] s in
  startMicrophone_request s.

(** [handleStart] from the assignment of the chunk handler on. *)
Definition handleStart_record (mediaRecorder : RecorderId) (s : State) : State :=
  let userStream := match recorders (host s) mediaRecorder with
                    | Some info => rstream info
                    | None => 0
                    end in
  let s := recorders_set mediaRecorder (mkRecorder recording userStream true) s in
  emit (RecorderStart mediaRecorder 200) s.

(** The [catch] block of [handleStart]. *)
Definition handleStart_catch (message : option string) (s : State) : State :=
  setConnectionStatus offline (setError (Some (Js.orElse message "Failed to start")) s).

(** [handleStart] from the resolution of [startMicrophone] to the end, or
    to [await initConnection()] when that promise is still pending. *)
Definition handleStart_connect (seen : Status) (mediaRecorder : RecorderId)
    (s : State) : State :=
  if connectionReady s then handleStart_record mediaRecorder s
  else
    match initConnection seen s with
    | (Resolved _, s) => handleStart_record mediaRecorder s
    | (Rejected message, s) => handleStart_catch message s
    | (Pending c, s) =>
        awaitingOpen_set (awaitingOpen (host s) ++ [(c, mediaRecorder)]) s
    end.

Definition handleStop (s : State) : State :=
  let s := stopMicrophone s in
  let s := setInterimTranscript "" s in
  let s := match closeTimeoutRef (app s) with
           | Some t => clearTimeout t s
           | None => s
           end in
  let (t, s) := setTimeout 60000 s in
  closeTimeoutRef_set (Some t) s.

Definition clearTranscription (s : State) : State :=
  setInterimTranscript "" (setTranscription (fun _ => "") s).

(** The cleanup function of the mount effect. *)
Definition teardown (s : State) : State :=
  let s := match closeTimeoutRef (app s) with
           | Some t => clearTimeout t s
           | None => s
           end in
  let s := stopKeepAlive s in
  match connectionRef (app s) with
  | Some c => emit (Finish c) s
  | None => s
  end.

(** ** Events

    What the user, the browser and the SDK can do to the component.  An
    event that cannot happen in the current state (a timer that is not due,
    a handler that was never registered) has no successor. *)

Inductive Event :=
| MouseDown                                   (* [handleStart] is called *)
| MicGranted (i : nat) (userStream : StreamId) (isTypeSupported : string -> bool)
| MicDenied (i : nat) (message : option string)
| SocketState (c : ConnId) (rs : N)           (* the socket's ready state changes *)
| ConnOpen (c : ConnId)
| ConnResults (c : ConnId) (data : Results)
| ConnError (c : ConnId) (message : option string)
| ConnClose (c : ConnId)
| DataAvailable (r : RecorderId) (data : Blob)
| HeartbeatFires (t : TimerId)
| MouseUp                                     (* [handleStop] is called *)
| Elapse (ms : N)
| GraceExpires (t : TimerId)
| ClearClicked
| Unmount.

Fixpoint removeNth {A} (i : nat) (l : list A) : list A :=
  match i, l with
  | _, [] => []
  | O, _ :: l' => l'
  | S i', x :: l' => x :: removeNth i' l'
  end.

(** The [handleStart] call awaiting the promise of connection [c], if any,
    and the remaining ones. *)
Fixpoint takeAwaiting (c : ConnId) (l : list (ConnId * RecorderId))
  : option RecorderId * list (ConnId * RecorderId) :=
  match l with
  | [] => (None, [])
  | (c', r) :: l' =>
      if Nat.eqb c' c then (Some r, l')
      else let (found, rest) := takeAwaiting c l' in (found, (c', r) :: rest)
  end.

(** [resolve(connection)] in the "open" handler. *)
Definition resolveOpen (c : ConnId) (s : State) : State :=
  match takeAwaiting c (awaitingOpen (host s)) with
  | (Some mediaRecorder, rest) => handleStart_record mediaRecorder (awaitingOpen_set rest s)
  | (None, _) => s
  end.

(** [reject(err)] in the "error" handler. *)
Definition rejectOpen (c : ConnId) (message : option string) (s : State) : State :=
  match takeAwaiting c (awaitingOpen (host s)) with
  | (Some _, rest) => handleStart_catch message (awaitingOpen_set rest s)
  | (None, _) => s
  end.

Definition dueTime (t : TimerId) (s : State) : option N :=
  option_map snd (find (fun p => Nat.eqb (fst p) t) (timeouts (host s))).

Definition connected (c : ConnId) (s : State) : bool :=
  match readyState (host s) c with Some _ => true | None => false end.

Definition step (e : Event) (s : State) : option State :=
  match e with
  | MouseDown =>
      Some (awaitingMic_set (awaitingMic (host s) ++ [connectionStatus (app s)])
              (handleStart_begin s))
  | MicGranted i userStream isTypeSupported =>
      match nth_error (awaitingMic (host s)) i with
      | Some seen =>
          let s := awaitingMic_set (removeNth i (awaitingMic (host s))) s in
          let (mediaRecorder, s) := startMicrophone_granted userStream isTypeSupported s in
          Some (handleStart_connect seen mediaRecorder s)
      | None => None
      end
  | MicDenied i message =>
      match nth_error (awaitingMic (host s)) i with
      | Some _ =>
          Some (handleStart_catch message
                  (awaitingMic_set (removeNth i (awaitingMic (host s))) s))
      | None => None
      end
  | SocketState c rs =>
      if connected c s then Some (readyState_set c rs s) else None
  | ConnOpen c =>
      if connected c s then Some (resolveOpen c (onOpen s)) else None
  | ConnResults c data =>
      if connected c s then Some (handleResults data s) else None
  | ConnError c message =>
      if connected c s then Some (rejectOpen c message (onError s)) else None
  | ConnClose c =>
      if connected c s then Some (onClose s) else None
  | DataAvailable r data =>
      match recorders (host s) r with
      | Some info => if ondataavailable info then Some (onDataAvailable data s) else None
      | None => None
      end
  | HeartbeatFires t =>
      if existsb (Nat.eqb t) (intervals (host s)) then Some (heartbeat s) else None
  | MouseUp => Some (handleStop s)
  | Elapse ms => Some (now_set (now (host s) + ms)%N s)
  | GraceExpires t =>
      match dueTime t s with
      | Some due =>
          if (due <=? now (host s))%N
          then Some (closeConnection
                       (timeouts_set (removeTimeout t (timeouts (host s))) s))
          else None
      | None => None
      end
  | ClearClicked => Some (clearTranscription s)
  | Unmount => Some (teardown s)
  end.

Fixpoint run (evs : list Event) (s : State) : option State :=
  match evs with
  | [] => Some s
  | e :: evs' =>
      match step e s with
      | Some s' => run evs' s'
      | None => None
      end
  end.

(** The component as first mounted, at time 0. *)
Definition initial (key : option string) : State :=
  mkState
    (mkApp "" "" offline None None [] None None)
    (mkMic None None false None)
    (mkHost 0 [] [] (fun _ => None) (fun _ => None) [] [] 1 key []).

(** *** Reading the log *)

Definition effects (s : State) : list Effect := map snd (log (host s)).

(** The chunks sent on connection [c], in order. *)
Fixpoint sentOn (c : ConnId) (l : list Effect) : list Blob :=
  match l with
  | [] => []
  | Send c' chunk :: l' =>
      if Nat.eqb c' c then chunk :: sentOn c l' else sentOn c l'
  | _ :: l' => sentOn c l'
  end.

Definition isFinish (e : Effect) : bool :=
  match e with Finish _ => true | _ => false end.

Definition isSend (e : Effect) : bool :=
  match e with Send _ _ => true | _ => false end.

(** The chunks the recorders hand over during a run of events. *)
Fixpoint captured (evs : list Event) : list Blob :=
  match evs with
  | [] => []
  | DataAvailable _ data :: evs' => data :: captured evs'
  | _ :: evs' => captured evs'
  end.

(** A transcript event, as the service tags it. *)
Definition interim (text : string) : Results :=
  mkResults (Some [mkAlternative (Some text)]) false.
Definition final (text : string) : Results :=
  mkResults (Some [mkAlternative (Some text)]) true.

(** *** Vocabulary of the statements *)

(** The parameters every connection is opened with. *)
Definition fixedOptions : LiveOptions :=
  {| model := "nova"; language := "en-US"; smart_format := true |}.

(** The chunks that carry data: the handler skips [size = 0]. *)
Definition audible (chunks : list Blob) : list Blob :=
  filter (fun data => (0 <? size data)%N) chunks.

(** The recorder hands over [chunks], one after the other. *)
Definition feed (chunks : list Blob) (s : State) : State :=
  fold_left (fun s data => onDataAvailable data s) chunks s.

(** All [send] calls of a log, in order. *)
Definition sends (l : list Effect) : list Effect := filter isSend l.

Definition optional {A} (f : A -> Effect) (o : option A) : list Effect :=
  match o with Some x => [f x] | None => [] end.

(** Events that are no part of a [startTalking] call and no teardown. *)
Definition quiet (e : Event) : bool :=
  match e with
  | MouseDown | MicGranted _ _ _ | MicDenied _ _ | Unmount => false
  | _ => true
  end.

(** Quiet events other than [stopTalking] and the expiry of a timer. *)
Definition idle (e : Event) : bool :=
  match e with
  | MouseUp | GraceExpires _ => false
  | _ => quiet e
  end.

(** Every pending timeout is the one [closeTimeoutRef] holds. *)
Definition timers_ok (s : State) : Prop :=
  forall t due, In (t, due) (timeouts (host s)) -> closeTimeoutRef (app s) = Some t.

(** What a step may call: connections are opened with the fixed options;
    the chunks sent were in the buffer or are the one just handed over;
    [finish] is called only by the grace timer or the teardown, on the
    connection held. *)
Definition allowed (e : Event) (s : State) (eff : Effect) : Prop :=
  match eff with
  | ListenLive _ _ opts => opts = fixedOptions
  | Send _ chunk => In chunk (audioBufferRef (app s) ++ captured [e])
  | Finish c =>
      connectionRef (app s) = Some c /\
      match e with GraceExpires _ | Unmount => True | _ => False end
  | _ => True
  end.

(** A log entry of a step: stamped with the current time, and allowed. *)
Definition entry_ok (e : Event) (s : State) (entry : N * Effect) : Prop :=
  fst entry = now (host s) /\ allowed e s (snd entry).

(** *** Scenarios *)

Definition micKey : option string := Some "key".
Definition webmOnly (type : string) : bool := String.eqb type "audio/webm".

(** A first press of the button, answered by the microphone and by the
    service: recorder 1 records stream 7, connection 2 is open, heartbeat 3
    runs. *)
Definition pressAndOpen : list Event :=
  [MouseDown; MicGranted 0 7 webmOnly; SocketState 2 1; ConnOpen 2].

Definition chunk (n : N) : Blob := mkBlob 10 n.

(** Chunk 1 is sent; then the socket drops and chunks 2 and 3 are buffered. *)
Definition dropAndBuffer : list Event :=
  pressAndOpen ++
  [DataAvailable 1 (chunk 1); SocketState 2 3;
   DataAvailable 1 (chunk 2); DataAvailable 1 (chunk 3)].

(** After a second press: the microphone is granted, connection 5 opens,
    recorder 4 hands over chunk 4. *)
Definition grantedAgain : list Event :=
  [MicGranted 0 8 webmOnly; SocketState 5 1; ConnOpen 5; DataAvailable 4 (chunk 4)].

(** *** Footprints *)

(** Calls that neither send audio, nor close or open a connection. *)
Definition harmless (e : Effect) : Prop :=
  match e with
  | Send _ _ | Finish _ | ListenLive _ _ _ => False
  | _ => True
  end.

(** No time passes from [s] to [s'], and [s'] has the log of [s] followed
    by entries made at that time, all satisfying [P]. *)
Definition logged (P : Effect -> Prop) (s s' : State) : Prop :=
  now (host s') = now (host s) /\
  exists new,
    log (host s') = log (host s) ++ new /\
    Forall (fun entry => fst entry = now (host s) /\ P (snd entry)) new.

(** The cells the session properties depend on. *)
Definition core (s : State)
  : N * list (TimerId * N) * option TimerId * option ConnId * list Blob :=
  (now (host s), timeouts (host s), closeTimeoutRef (app s),
   connectionRef (app s), audioBufferRef (app s)).

(** [s'] differs from [s] by harmless calls and by cells outside the core. *)
Definition quietly (s s' : State) : Prop :=
  core s' = core s /\ logged harmless s s'.

(** Calls a [startTalking] continuation may make. *)
Definition opening (e : Effect) : Prop :=
  match e with
  | Send _ _ | Finish _ => False
  | ListenLive _ _ opts => opts = fixedOptions
  | _ => True
  end.

(** [s'] differs from [s] as a [startTalking] continuation may make it:
    the connection handle and the cells outside the core may change. *)
Definition starting (s s' : State) : Prop :=
  timeouts (host s') = timeouts (host s) /\
  closeTimeoutRef (app s') = closeTimeoutRef (app s) /\
  audioBufferRef (app s') = audioBufferRef (app s) /\
  logged opening s s'.

(** Events whose handlers leave the core alone. *)
Definition silent (e : Event) : bool :=
  match e with
  | SocketState _ _ | ConnOpen _ | ConnResults _ _ | ConnError _ _ | ConnClose _
  | HeartbeatFires _ | ClearClicked | MicDenied _ _ => true
  | _ => false
  end.

(** The log entries of sending [chunks] on [c] at the time of [s]. *)
Definition stamped (s : State) (c : ConnId) (chunks : list Blob) : list (N * Effect) :=
  map (fun chunk => (now (host s), Send c chunk)) chunks.

(** The three ways of the handler: skip, send, buffer. *)
Inductive handled (data : Blob) (s s' : State) : Prop :=
| handled_skipped :
    size data = 0%N -> s' = s -> handled data s s'
| handled_sent (c : ConnId) :
    (0 < size data)%N -> connectionRef (app s) = Some c -> isOpen c s = true ->
    s' = log_set (log (host s) ++ stamped s c (audioBufferRef (app s) ++ [data]))
                 (audioBufferRef_set [] s) ->
    handled data s s'
| handled_buffered :
    (0 < size data)%N -> connectionReady s = false ->
    s' = audioBufferRef_set (audioBufferRef (app s) ++ [data]) s ->
    handled data s s'.

(** The pending timeouts once [clearTimeout] was called on the handle held. *)
Definition cleared (handle : option TimerId) (l : list (TimerId * N))
  : list (TimerId * N) :=
  match handle with
  | Some t => removeTimeout t l
  | None => l
  end.

(** Entries made at the time of [s]. *)
Definition at_now (s : State) (effs : list Effect) : list (N * Effect) :=
  map (pair (now (host s))) effs.

(** A log entry that opens a connection does so with the fixed options. *)
Definition opensFixed (entry : N * Effect) : Prop :=
  match snd entry with
  | ListenLive _ _ opts => opts = fixedOptions
  | _ => True
  end.

(** The number of [finish] calls among log entries. *)
Definition countFinish (entries : list (N * Effect)) : nat :=
  List.length (filter (fun entry => isFinish (snd entry)) entries).

(** What holds from a [stopTalking] call on, as long as neither a
    [startTalking] call nor the teardown intervenes: every pending timeout
    is due at [deadline] or later, the clock is within 60 s of it, and the
    log since [base] has at most one [finish], made at [deadline] or later,
    after which no connection is held. *)
Definition graceInv (deadline : N) (base : list (N * Effect)) (s : State) : Prop :=
  (forall t due, In (t, due) (timeouts (host s)) -> (deadline <= due)%N) /\
  (deadline <= now (host s) + 60000)%N /\
  exists new,
    log (host s) = base ++ new /\
    (forall stamp eff, In (stamp, eff) new -> isFinish eff = true ->
       (deadline <= stamp)%N) /\
    countFinish new <= 1 /\
    (countFinish new = 1 -> connectionRef (app s) = None).

(** The grace period after a [stopTalking] call made in state [s] while
    connection [c] is held.  One timeout [t] is pending, due 60 s later.
    Whatever quiet events follow, the log gains no [finish] stamped before
    that time and at most one at all.  After idle events only, the timer
    cannot fire before that time; at that time and later it can, and its
    firing makes one [finish] call on [c], sets the status to offline,
    drops the handle and clears the heartbeat interval. *)
Definition gracePeriod (s : State) (c : ConnId) : Prop :=
  exists t s1,
    step MouseUp s = Some s1 /\
    closeTimeoutRef (app s1) = Some t /\
    timeouts (host s1) = [(t, (now (host s) + 60000)%N)] /\
    (forall evs s2,
       forallb quiet evs = true -> run evs s1 = Some s2 ->
       exists new,
         log (host s2) = log (host s) ++ new /\
         (forall stamp eff, In (stamp, eff) new -> isFinish eff = true ->
            (now (host s) + 60000 <= stamp)%N) /\
         countFinish new <= 1) /\
    (forall evs s2,
       forallb idle evs = true -> run evs s1 = Some s2 ->
       (now (host s2) < now (host s) + 60000)%N ->
       step (GraceExpires t) s2 = None) /\
    (forall evs s2,
       forallb idle evs = true -> run evs s1 = Some s2 ->
       (now (host s) + 60000 <= now (host s2))%N ->
       exists s3,
         step (GraceExpires t) s2 = Some s3 /\
         log (host s3) =
           log (host s2) ++
           at_now s2 (Finish c :: optional ClearInterval (keepAliveIntervalRef (app s2))) /\
         connectionStatus (app s3) = offline /\
         connectionRef (app s3) = None /\
         keepAliveIntervalRef (app s3) = None /\
         (forall k, keepAliveIntervalRef (app s2) = Some k ->
            existsb (Nat.eqb k) (intervals (host s3)) = false) /\
         timeouts (host s3) = []).

(** *** Further vocabulary *)

(** The chunks of the [send] calls among log entries, in order. *)
Definition sentChunks (entries : list (N * Effect)) : list Blob :=
  flat_map (fun entry => match snd entry with
                         | Send _ chunk => [chunk]
                         | _ => []
                         end) entries.

(** Events other than a new [startTalking] call. *)
Definition noRestart (e : Event) : bool :=
  match e with MouseDown => false | _ => true end.

(** Every running interval is the one [keepAliveIntervalRef] holds. *)
Definition beats_ok (s : State) : Prop :=
  forall t, In t (intervals (host s)) -> keepAliveIntervalRef (app s) = Some t.

(** [!DEEPGRAM_API_KEY] *)
Definition keyMissing (key : option string) : bool :=
  match key with
  | Some k => negb (Js.truthy k)
  | None => true
  end.

(** The argument of [navigator.clipboard.writeText] in [copyToClipboard]. *)
Definition copiedText (s : State) : string := Js.trim (transcription (app s)).

(** No whitespace at either end. *)
Definition trimmed (text : string) : Prop := Js.trim text = text.

(** The heartbeat cells. *)
Definition beat (s : State) : list TimerId * option TimerId :=
  (intervals (host s), keepAliveIntervalRef (app s)).

(** The component has never reached the service: no socket exists, no
    connection is held, the status is offline, and the log has no call
    that opens a connection, sends audio or finishes a connection. *)
Definition unconnected (s : State) : Prop :=
  (forall c, readyState (host s) c = None) /\
  connectionRef (app s) = None /\
  connectionStatus (app s) = offline /\
  Forall (fun entry => harmless (snd entry)) (log (host s)).

(** The message of the error [getDeepgramClient] throws. *)
Definition missingKeyMessage : string := "Missing VITE_DEEPGRAM_API_KEY".

(** The sockets and the status shown. *)
Definition socketsAndStatus (s : State) : (ConnId -> option N) * Status :=
  (readyState (host s), connectionStatus (app s)).

(** [trim] on code-unit lists. *)
Definition trimList (l : list ascii) : list ascii :=
  rev (Js.dropWhiteSpace (rev (Js.dropWhiteSpace l))).

(** The list is empty or starts with a code unit that is no whitespace. *)
Definition startsClean (l : list ascii) : Prop :=
  match l with
  | [] => True
  | a :: _ => Js.isWhiteSpace a = false
  end.

(** * Transcript assembly *)

Section Transcript.

Variable s : State.

Lemma handleResults_host (data : Results) : host (handleResults data s) = host s.
Proof.
  unfold handleResults.
  destruct (transcriptOf data) as [text|]; [|reflexivity].
  destruct (Js.truthy text); [|reflexivity].
  destruct (is_final data); reflexivity.
Qed.

Lemma handleResults_falsy (data : Results) :
  transcriptOf data = Some "" -> handleResults data s = s.
Proof. intros H. unfold handleResults. rewrite H. reflexivity. Qed.

Lemma handleResults_interim (data : Results) (text : string) :
  is_final data = false -> transcriptOf data = Some text -> Js.truthy text = true ->
  handleResults data s = setInterimTranscript text s.
Proof. intros Hf Ht Hn. unfold handleResults. rewrite Ht, Hn, Hf. reflexivity. Qed.

End Transcript.

Lemma truthy_nonempty (text : string) : text <> "" -> Js.truthy text = true.
Proof. destruct text; [congruence | reflexivity]. Qed.

(** C4, as the code has it: a final event whose text is empty changes
    nothing; the committed transcript and the interim transcript both stay
    as they were (the interim transcript is not cleared). *)
Theorem C4_empty_final_is_ignored (data : Results) (s : State) :
  is_final data = true ->
  transcriptOf data = Some "" ->
  handleResults data s = s /\
  transcription (app (handleResults data s)) = transcription (app s) /\
  interimTranscript (app (handleResults data s)) = interimTranscript (app s).
Proof.
  intros _ Htext. rewrite (handleResults_falsy s data Htext). auto.
Qed.

Lemma C4_empty_final_is_ignored_witness :
  let s := handleResults (interim "hel") (initial None) in
  handleResults (final "") s = s /\
  transcription (app (handleResults (final "") s)) = transcription (app s) /\
  interimTranscript (app (handleResults (final "") s)) = interimTranscript (app s).
Proof.
  exact (C4_empty_final_is_ignored (final "")
           (handleResults (interim "hel") (initial None)) eq_refl eq_refl).
Defined.

(** C4 fails as stated: with "hel" on display, a final event with empty
    text leaves the interim transcript at "hel". *)
Lemma C4_counterexample :
  let s := handleResults (interim "hel") (initial None) in
  interimTranscript (app s) = "hel" /\
  interimTranscript (app (handleResults (final "") s)) = "hel" /\
  interimTranscript (app (handleResults (final "") s)) <> "".
Proof. repeat split; try reflexivity. discriminate. Qed.

(** C5, as the code has it: an interim event with non-empty text replaces
    the interim transcript with that text; one with empty text changes
    nothing; in both cases the committed transcript stays. *)
Theorem C5_interim_replaces_when_nonempty (data : Results) (text : string) (s : State) :
  is_final data = false ->
  transcriptOf data = Some text ->
  transcription (app (handleResults data s)) = transcription (app s) /\
  (text <> "" -> interimTranscript (app (handleResults data s)) = text) /\
  (text = "" -> handleResults data s = s).
Proof.
  intros Hf Ht. repeat split.
  - destruct text as [|a text'].
    + rewrite (handleResults_falsy s data Ht). reflexivity.
    + rewrite (handleResults_interim s data _ Hf Ht eq_refl). reflexivity.
  - intros Hne.
    rewrite (handleResults_interim s data _ Hf Ht (truthy_nonempty _ Hne)).
    reflexivity.
  - intros ->. apply handleResults_falsy, Ht.
Qed.

Lemma C5_interim_replaces_when_nonempty_witness :
  let s := handleResults (interim "a") (initial None) in
  transcription (app (handleResults (interim "ab") s)) = transcription (app s) /\
  ("ab" <> "" -> interimTranscript (app (handleResults (interim "ab") s)) = "ab") /\
  ("ab" = "" -> handleResults (interim "ab") s = s).
Proof.
  exact (C5_interim_replaces_when_nonempty (interim "ab") "ab"
           (handleResults (interim "a") (initial None)) eq_refl eq_refl).
Defined.

(** C5 fails as stated: an interim event with empty text does not clear
    the partial text on display. *)
Lemma C5_counterexample :
  let s := handleResults (interim "hel") (initial None) in
  interimTranscript (app (handleResults (interim "") s)) = "hel" /\
  interimTranscript (app (handleResults (interim "") s)) <> "".
Proof. split; [reflexivity | discriminate]. Qed.

(** C9: from an empty transcript, interim "a", interim "ab", final "abc"
    give committed "abc" and an empty interim; a further interim "" leaves
    the committed transcript as it is. *)
Theorem C9_transcript_merge (s : State) :
  transcription (app s) = "" ->
  interimTranscript (app s) = "" ->
  let s3 := handleResults (final "abc")
              (handleResults (interim "ab") (handleResults (interim "a") s)) in
  transcription (app s3) = "abc" /\
  interimTranscript (app s3) = "" /\
  transcription (app (handleResults (interim "") s3)) = transcription (app s3).
Proof.
  destruct s as [[t i st er cr ab ct ka] m h]. simpl. intros -> ->.
  repeat split.
Qed.

Lemma C9_transcript_merge_witness :
  let s3 := handleResults (final "abc")
              (handleResults (interim "ab") (handleResults (interim "a") (initial None))) in
  transcription (app s3) = "abc" /\
  interimTranscript (app s3) = "" /\
  transcription (app (handleResults (interim "") s3)) = transcription (app s3).
Proof. exact (C9_transcript_merge (initial None) eq_refl eq_refl). Defined.

(** * Connection errors *)

Lemma onError_app (s : State) :
  app (onError s) =
  mkApp (transcription (app s)) (interimTranscript (app s)) error_
        (Some "AI Connection Error") (connectionRef (app s)) (audioBufferRef (app s))
        (closeTimeoutRef (app s)) (keepAliveIntervalRef (app s)).
Proof. reflexivity. Qed.

Lemma handleStart_catch_app (message : option string) (s : State) :
  app (handleStart_catch message s) =
  mkApp (transcription (app s)) (interimTranscript (app s)) offline
        (Some (Js.orElse message "Failed to start")) (connectionRef (app s))
        (audioBufferRef (app s)) (closeTimeoutRef (app s)) (keepAliveIntervalRef (app s)).
Proof. reflexivity. Qed.

Lemma rejectOpen_cases (c : ConnId) (message : option string) (s : State) :
  (fst (takeAwaiting c (awaitingOpen (host s))) = None /\ rejectOpen c message s = s) \/
  (fst (takeAwaiting c (awaitingOpen (host s))) <> None /\
   app (rejectOpen c message s) = app (handleStart_catch message s) /\
   mic (rejectOpen c message s) = mic s /\
   log (host (rejectOpen c message s)) = log (host s)).
Proof.
  unfold rejectOpen.
  destruct (takeAwaiting c (awaitingOpen (host s))) as [[r|] rest]; simpl.
  - right. repeat split. discriminate.
  - left. auto.
Qed.

(** C6, as the code has it: an error event records an error text and keeps
    the connection handle.  When no [startTalking] call is still waiting
    for that connection the status becomes Error and the text is
    "AI Connection Error"; when one is waiting, its catch block runs right
    after, so the status ends Idle with the text of the rejection. *)
Theorem C6_error_keeps_handle (c : ConnId) (message : option string) (s s' : State) :
  step (ConnError c message) s = Some s' ->
  connectionRef (app s') = connectionRef (app s) /\
  audioBufferRef (app s') = audioBufferRef (app s) /\
  (fst (takeAwaiting c (awaitingOpen (host s))) = None ->
     connectionStatus (app s') = error_ /\
     error (app s') = Some "AI Connection Error") /\
  (fst (takeAwaiting c (awaitingOpen (host s))) <> None ->
     connectionStatus (app s') = offline /\
     error (app s') = Some (Js.orElse message "Failed to start")).
Proof.
  simpl. destruct (connected c s); [|discriminate].
  intros H. injection H as <-.
  destruct (rejectOpen_cases c message (onError s)) as [[Hn Heq] | [Hn [Happ _]]];
    change (awaitingOpen (host (onError s))) with (awaitingOpen (host s)) in Hn.
  - rewrite Heq, onError_app. simpl. repeat split; auto; contradiction.
  - rewrite Happ, handleStart_catch_app, onError_app. simpl.
    repeat split; auto; contradiction.
Qed.

Lemma C6_error_keeps_handle_witness :
  exists s s',
    run pressAndOpen (initial micKey) = Some s /\
    step (ConnError 2 (Some "socket")) s = Some s' /\
    connectionRef (app s') = connectionRef (app s) /\
    audioBufferRef (app s') = audioBufferRef (app s) /\
    (fst (takeAwaiting 2 (awaitingOpen (host s))) = None ->
       connectionStatus (app s') = error_ /\
       error (app s') = Some "AI Connection Error") /\
    (fst (takeAwaiting 2 (awaitingOpen (host s))) <> None ->
       connectionStatus (app s') = offline /\
       error (app s') = Some (Js.orElse (Some "socket") "Failed to start")).
Proof.
  eexists. eexists. split; [vm_compute; reflexivity|].
  split; [vm_compute; reflexivity|].
  apply (C6_error_keeps_handle 2 (Some "socket")). vm_compute. reflexivity.
Defined.

(** C6 fails as stated: the connection is Online with the heartbeat
    running; after the error event the handle is still held and the
    heartbeat interval is still running. *)
Lemma C6_counterexample :
  exists s s',
    run pressAndOpen (initial micKey) = Some s /\
    connectionStatus (app s) = online /\
    step (ConnError 2 (Some "socket")) s = Some s' /\
    connectionStatus (app s') = error_ /\
    connectionRef (app s') = Some 2 /\
    keepAliveIntervalRef (app s') = Some 3 /\
    intervals (host s') = [3] /\
    ~ (keepAliveIntervalRef (app s') = None /\ connectionRef (app s') = None).
Proof.
  eexists. eexists. split; [vm_compute; reflexivity|].
  split; [reflexivity|]. split; [vm_compute; reflexivity|].
  vm_compute. repeat split. intros [H _]. discriminate H.
Qed.

(** * Teardown *)

Lemma effects_emit (e : Effect) (s : State) : effects (emit e s) = effects s ++ [e].
Proof. unfold effects, emit. simpl. rewrite map_app. reflexivity. Qed.

Lemma find_removeTimeout (t : TimerId) (l : list (TimerId * N)) :
  find (fun p => Nat.eqb (fst p) t) (removeTimeout t l) = None.
Proof.
  induction l as [|[t' d] l IH]; simpl; [reflexivity|].
  destruct (Nat.eqb t' t) eqn:E; simpl; [exact IH|].
  rewrite E. exact IH.
Qed.

Lemma existsb_removeInterval (t : TimerId) (l : list TimerId) :
  existsb (Nat.eqb t) (removeInterval t l) = false.
Proof.
  induction l as [|t' l IH]; simpl; [reflexivity|].
  destruct (Nat.eqb t' t) eqn:E; simpl; [exact IH|].
  rewrite Nat.eqb_sym, E. exact IH.
Qed.

(** C7, as the code has it: the teardown, in any state, clears the grace
    timer and the heartbeat interval and calls [finish] on the connection
    it holds, and always completes; it does not release the audio source:
    the recorder, its stream and the capture flag are left as they are. *)
Theorem C7_teardown_timers_and_connection (s : State) :
  step Unmount s = Some (teardown s) /\
  effects (teardown s) =
    effects s ++ optional ClearTimeout (closeTimeoutRef (app s))
              ++ optional ClearInterval (keepAliveIntervalRef (app s))
              ++ optional Finish (connectionRef (app s)) /\
  (forall t, closeTimeoutRef (app s) = Some t -> dueTime t (teardown s) = None) /\
  (forall t, keepAliveIntervalRef (app s) = Some t ->
     existsb (Nat.eqb t) (intervals (host (teardown s))) = false) /\
  keepAliveIntervalRef (app (teardown s)) = None /\
  mic (teardown s) = mic s /\
  recorders (host (teardown s)) = recorders (host s).
Proof.
  destruct s as [[tr it st er cr ab ct ka] m h].
  split; [reflexivity|].
  destruct ct as [t|], ka as [k|], cr as [c|];
    unfold teardown, stopKeepAlive, dueTime, effects; simpl;
    repeat split;
    try (intros x Hx; first [discriminate Hx | injection Hx as <-];
         first [ rewrite find_removeTimeout; reflexivity
               | apply existsb_removeInterval ]);
    try reflexivity;
    rewrite ?map_app, <- ?app_assoc, ?app_nil_r; reflexivity.
Qed.

(** C7 fails as stated: torn down while capturing, the component stops the
    heartbeat and finishes the connection, but the recorder keeps
    recording and its tracks are not stopped. *)
Lemma C7_counterexample :
  exists s,
    run pressAndOpen (initial micKey) = Some s /\
    isRecording (mic s) = true /\
    recorderActive 1 s = true /\
    effects (teardown s) = effects s ++ [ClearInterval 3; Finish 2] /\
    isRecording (mic (teardown s)) = true /\
    recorderActive 1 (teardown s) = true.
Proof.
  eexists. split; [vm_compute; reflexivity|].
  vm_compute. repeat split.
Qed.

(** * Footprints of the callbacks *)

Lemma logged_refl (P : Effect -> Prop) (s : State) : logged P s s.
Proof.
  split; [reflexivity|]. exists []. rewrite app_nil_r.
  split; [reflexivity | constructor].
Qed.

Lemma logged_trans (P : Effect -> Prop) (s1 s2 s3 : State) :
  logged P s1 s2 -> logged P s2 s3 -> logged P s1 s3.
Proof.
  intros [N1 [n1 [E1 F1]]] [N2 [n2 [E2 F2]]]. split; [congruence|].
  exists (n1 ++ n2). split.
  - rewrite E2, E1, app_assoc. reflexivity.
  - apply Forall_app. split; [exact F1|]. rewrite N1 in F2. exact F2.
Qed.

Lemma logged_weaken (P Q : Effect -> Prop) (s s' : State) :
  (forall e, P e -> Q e) -> logged P s s' -> logged Q s s'.
Proof.
  intros HPQ [Hnow [new [E F]]]. split; [exact Hnow|]. exists new.
  split; [exact E|].
  eapply Forall_impl; [|exact F]. intros entry [H1 H2]. split; auto.
Qed.

Lemma logged_emit (P : Effect -> Prop) (e : Effect) (s : State) :
  P e -> logged P s (emit e s).
Proof.
  intros HP. split; [reflexivity|]. exists [(now (host s), e)].
  split; [reflexivity|].
  constructor; [split; [reflexivity | exact HP] | constructor].
Qed.

Lemma quietly_refl (s : State) : quietly s s.
Proof. split; [reflexivity | apply logged_refl]. Qed.

Lemma quietly_trans (s1 s2 s3 : State) :
  quietly s1 s2 -> quietly s2 s3 -> quietly s1 s3.
Proof.
  intros [C1 L1] [C2 L2]. split; [congruence|].
  apply (logged_trans harmless s1 s2 s3); auto.
Qed.

Lemma quietly_emit (e : Effect) (s : State) : harmless e -> quietly s (emit e s).
Proof. intros H. split; [reflexivity | apply logged_emit, H]. Qed.

Ltac quiet_setter :=
  intros; split;
  [ reflexivity
  | split; [reflexivity|]; exists []; split;
    [simpl; rewrite app_nil_r; reflexivity | constructor] ].

Lemma quietly_setTranscription f s : quietly s (setTranscription f s).
Proof. quiet_setter. Qed.
Lemma quietly_setInterimTranscript v s : quietly s (setInterimTranscript v s).
Proof. quiet_setter. Qed.
Lemma quietly_setConnectionStatus v s : quietly s (setConnectionStatus v s).
Proof. quiet_setter. Qed.
Lemma quietly_setError v s : quietly s (setError v s).
Proof. quiet_setter. Qed.
Lemma quietly_keepAliveIntervalRef_set v s : quietly s (keepAliveIntervalRef_set v s).
Proof. quiet_setter. Qed.
Lemma quietly_setStream v s : quietly s (setStream v s).
Proof. quiet_setter. Qed.
Lemma quietly_setRecorder v s : quietly s (setRecorder v s).
Proof. quiet_setter. Qed.
Lemma quietly_setIsRecording v s : quietly s (setIsRecording v s).
Proof. quiet_setter. Qed.
Lemma quietly_mediaStreamRef_set v s : quietly s (mediaStreamRef_set v s).
Proof. quiet_setter. Qed.
Lemma quietly_intervals_set v s : quietly s (intervals_set v s).
Proof. quiet_setter. Qed.
Lemma quietly_readyState_set c v s : quietly s (readyState_set c v s).
Proof. quiet_setter. Qed.
Lemma quietly_recorders_set r v s : quietly s (recorders_set r v s).
Proof. quiet_setter. Qed.
Lemma quietly_awaitingMic_set v s : quietly s (awaitingMic_set v s).
Proof. quiet_setter. Qed.
Lemma quietly_awaitingOpen_set v s : quietly s (awaitingOpen_set v s).
Proof. quiet_setter. Qed.
Lemma quietly_nextId_set v s : quietly s (nextId_set v s).
Proof. quiet_setter. Qed.

Create HintDb quiet.
#[local] Hint Resolve quietly_setTranscription quietly_setInterimTranscript
  quietly_setConnectionStatus quietly_setError quietly_keepAliveIntervalRef_set
  quietly_setStream quietly_setRecorder quietly_setIsRecording
  quietly_mediaStreamRef_set quietly_intervals_set quietly_readyState_set
  quietly_recorders_set quietly_awaitingMic_set quietly_awaitingOpen_set
  quietly_nextId_set : quiet.
#[local] Hint Extern 1 (quietly _ (emit _ _)) => apply quietly_emit; exact I : quiet.

(** Peel the outermost call, split on the tests it makes. *)
Ltac quiet :=
  cbv zeta;
  lazymatch goal with
  | |- quietly ?s ?s => apply quietly_refl
  | |- quietly _ (match ?c with _ => _ end) => destruct c eqn:?; quiet
  | |- quietly _ (_ _) =>
      eapply quietly_trans; [ | solve [eauto 1 with quiet nocore] ]; quiet
  end.

Lemma quietly_clearInterval t s : quietly s (clearInterval t s).
Proof. unfold clearInterval. quiet. Qed.
#[local] Hint Resolve quietly_clearInterval : quiet.

Lemma quietly_stopKeepAlive s : quietly s (stopKeepAlive s).
Proof. unfold stopKeepAlive. quiet. Qed.
#[local] Hint Resolve quietly_stopKeepAlive : quiet.

Lemma quietly_startKeepAlive s : quietly s (startKeepAlive s).
Proof. unfold startKeepAlive, setInterval, fresh. quiet. Qed.
#[local] Hint Resolve quietly_startKeepAlive : quiet.

Lemma quietly_heartbeat s : quietly s (heartbeat s).
Proof. unfold heartbeat. quiet. Qed.

Lemma quietly_onOpen s : quietly s (onOpen s).
Proof. unfold onOpen. quiet. Qed.

Lemma quietly_onError s : quietly s (onError s).
Proof. unfold onError. quiet. Qed.

Lemma quietly_onClose s : quietly s (onClose s).
Proof. unfold onClose. quiet. Qed.

Lemma quietly_handleResults data s : quietly s (handleResults data s).
Proof. unfold handleResults. quiet. Qed.

Lemma quietly_clearTranscription s : quietly s (clearTranscription s).
Proof. unfold clearTranscription. quiet. Qed.

Lemma quietly_recorderStop r s : quietly s (recorderStop r s).
Proof. unfold recorderStop. quiet. Qed.
#[local] Hint Resolve quietly_recorderStop : quiet.

Lemma quietly_stopMicrophone s : quietly s (stopMicrophone s).
Proof. unfold stopMicrophone. quiet. Qed.

Lemma quietly_handleStart_record r s : quietly s (handleStart_record r s).
Proof. unfold handleStart_record. quiet. Qed.
#[local] Hint Resolve quietly_handleStart_record : quiet.

Lemma quietly_handleStart_catch message s : quietly s (handleStart_catch message s).
Proof. unfold handleStart_catch. quiet. Qed.
#[local] Hint Resolve quietly_handleStart_catch : quiet.

Lemma quietly_resolveOpen c s : quietly s (resolveOpen c s).
Proof. unfold resolveOpen. quiet. Qed.

Lemma quietly_rejectOpen c message s : quietly s (rejectOpen c message s).
Proof. unfold rejectOpen. quiet. Qed.

Lemma quietly_startMicrophone_granted userStream sup s :
  quietly s (snd (startMicrophone_granted userStream sup s)).
Proof. unfold startMicrophone_granted, fresh. simpl. quiet. Qed.

Lemma harmless_opening (e : Effect) : harmless e -> opening e.
Proof. destruct e; simpl; intros H; auto; contradiction. Qed.

Lemma logged_same (P : Effect -> Prop) (s s' : State) :
  now (host s') = now (host s) -> log (host s') = log (host s) -> logged P s s'.
Proof.
  intros Hn Hl. split; [exact Hn|]. exists []. rewrite app_nil_r.
  split; [exact Hl | constructor].
Qed.

Lemma starting_refl (s : State) : starting s s.
Proof. exact (conj eq_refl (conj eq_refl (conj eq_refl (logged_refl _ s)))). Qed.

Lemma starting_trans (s1 s2 s3 : State) :
  starting s1 s2 -> starting s2 s3 -> starting s1 s3.
Proof.
  intros [T1 [C1 [B1 L1]]] [T2 [C2 [B2 L2]]].
  refine (conj _ (conj _ (conj _ (logged_trans _ _ _ _ L1 L2)))); congruence.
Qed.

Lemma quietly_starting (s s' : State) : quietly s s' -> starting s s'.
Proof.
  intros [C L]. unfold core in C. injection C as Hn Ht Hc Hr Hb.
  exact (conj Ht (conj Hc (conj Hb (logged_weaken _ _ _ _ harmless_opening L)))).
Qed.

Lemma starting_connectionRef_set (v : option ConnId) (s : State) :
  starting s (connectionRef_set v s).
Proof.
  refine (conj eq_refl (conj eq_refl (conj eq_refl _))).
  apply logged_same; reflexivity.
Qed.

Lemma starting_emit (e : Effect) (s : State) : opening e -> starting s (emit e s).
Proof.
  intros H. exact (conj eq_refl (conj eq_refl (conj eq_refl (logged_emit _ e s H)))).
Qed.

Lemma starting_createTranscriptionConnection (dg : Client) (s : State) :
  starting s (snd (createTranscriptionConnection dg s)).
Proof.
  unfold createTranscriptionConnection, listen_live, fresh. simpl.
  eapply starting_trans; [ | apply starting_emit; reflexivity ].
  eapply starting_trans; [ | apply quietly_starting, quietly_readyState_set ].
  apply quietly_starting, quietly_nextId_set.
Qed.

Lemma starting_initConnection (seen : Status) (s : State) :
  starting s (snd (initConnection seen s)).
Proof.
  assert (Hfresh : forall s0,
    starting s0 (snd (
      let s := setConnectionStatus connecting s0 in
      let s := setError None s in
      match getDeepgramClient s with
      | inl dg =>
          let (connection, s) := createTranscriptionConnection dg s in
          let s := connectionRef_set (Some connection) s in
          (Pending connection, s)
      | inr message =>
          let s := setConnectionStatus error_ s in
          let s := setError (Some message) s in
          (Rejected (Some message), s)
      end))).
  { intros s0. cbv zeta.
    destruct (getDeepgramClient (setError None (setConnectionStatus connecting s0)))
      as [dg|message].
    - pose proof (starting_createTranscriptionConnection dg
                    (setError None (setConnectionStatus connecting s0))) as H.
      destruct (createTranscriptionConnection dg
                  (setError None (setConnectionStatus connecting s0))) as [c s1].
      simpl in *.
      eapply starting_trans; [ | apply starting_connectionRef_set ].
      eapply starting_trans; [ | exact H ].
      apply quietly_starting. quiet.
    - simpl. apply quietly_starting. quiet. }
  unfold initConnection.
  destruct (connectionRef (app s)) as [c|]; [destruct seen|];
    first [ apply starting_refl | apply Hfresh ].
Qed.

Lemma starting_handleStart_connect (seen : Status) (r : RecorderId) (s : State) :
  starting s (handleStart_connect seen r s).
Proof.
  unfold handleStart_connect.
  destruct (connectionReady s).
  - apply quietly_starting, quietly_handleStart_record.
  - pose proof (starting_initConnection seen s) as H.
    destruct (initConnection seen s) as [[c|message|c] s1]; simpl in H;
      (eapply starting_trans; [exact H|]); apply quietly_starting.
    + apply quietly_handleStart_record.
    + apply quietly_handleStart_catch.
    + apply quietly_awaitingOpen_set.
Qed.

Lemma step_MicGranted (i : nat) (userStream : StreamId) (sup : string -> bool)
    (s s' : State) :
  step (MicGranted i userStream sup) s = Some s' -> starting s s'.
Proof.
  unfold step. destruct (nth_error (awaitingMic (host s)) i) as [seen|]; [|discriminate].
  cbv zeta.
  pose proof (quietly_startMicrophone_granted userStream sup
                (awaitingMic_set (removeNth i (awaitingMic (host s))) s)) as H.
  destruct (startMicrophone_granted userStream sup
              (awaitingMic_set (removeNth i (awaitingMic (host s))) s)) as [r s1].
  simpl in H. intros E. injection E as <-.
  eapply starting_trans; [ | apply starting_handleStart_connect ].
  apply quietly_starting.
  eapply quietly_trans; [ apply quietly_awaitingMic_set | exact H ].
Qed.

Lemma step_silent (e : Event) (s s' : State) :
  silent e = true -> step e s = Some s' -> quietly s s'.
Proof.
  destruct e; try discriminate; intros _; simpl.
  - destruct (nth_error (awaitingMic (host s)) i); [|discriminate].
    intros E; injection E as <-.
    eapply quietly_trans; [apply quietly_awaitingMic_set | apply quietly_handleStart_catch].
  - destruct (connected c s); [|discriminate]. intros E; injection E as <-.
    apply quietly_readyState_set.
  - destruct (connected c s); [|discriminate]. intros E; injection E as <-.
    eapply quietly_trans; [apply quietly_onOpen | apply quietly_resolveOpen].
  - destruct (connected c s); [|discriminate]. intros E; injection E as <-.
    apply quietly_handleResults.
  - destruct (connected c s); [|discriminate]. intros E; injection E as <-.
    eapply quietly_trans; [apply quietly_onError | apply quietly_rejectOpen].
  - destruct (connected c s); [|discriminate]. intros E; injection E as <-.
    apply quietly_onClose.
  - destruct (existsb (Nat.eqb t) (intervals (host s))); [|discriminate].
    intros E; injection E as <-. apply quietly_heartbeat.
  - intros E; injection E as <-. apply quietly_clearTranscription.
Qed.

(** * The chunk handler *)

Lemma flush_eq (c : ConnId) (buffer : list Blob) (s : State) :
  flush c buffer s =
  log_set (log (host s) ++ map (fun chunk => (now (host s), Send c chunk)) buffer)
          (audioBufferRef_set [] s).
Proof.
  revert s. induction buffer as [|chunk rest IH]; intros [a m h]; simpl.
  - unfold log_set, onHost. simpl. rewrite app_nil_r. destruct h; reflexivity.
  - rewrite IH. unfold log_set, emit, audioBufferRef_set, log_set, onHost, onApp. simpl.
    rewrite <- app_assoc. reflexivity.
Qed.

Lemma onDataAvailable_handled (data : Blob) (s : State) :
  handled data s (onDataAvailable data s).
Proof.
  unfold onDataAvailable.
  destruct (0 <? size data)%N eqn:Hsize.
  - apply N.ltb_lt in Hsize.
    destruct (connectionRef (app s)) as [c|] eqn:Hc.
    + destruct (isOpen c s) eqn:Hopen.
      * apply (handled_sent data s _ c); auto.
        rewrite flush_eq. unfold stamped, emit, log_set, onHost. simpl.
        rewrite map_app, <- app_assoc. reflexivity.
      * apply handled_buffered; auto. unfold connectionReady. rewrite Hc. exact Hopen.
    + apply handled_buffered; auto. unfold connectionReady. rewrite Hc. reflexivity.
  - apply N.ltb_ge in Hsize. apply handled_skipped; [lia | reflexivity].
Qed.

Lemma audioBufferRef_set_twice (v w : list Blob) (s : State) :
  audioBufferRef_set v (audioBufferRef_set w s) = audioBufferRef_set v s.
Proof. reflexivity. Qed.

Lemma audioBufferRef_set_same (s : State) :
  audioBufferRef_set (audioBufferRef (app s)) s = s.
Proof. destruct s as [[] ? ?]. reflexivity. Qed.

Lemma ready_when_open (c : ConnId) (s : State) :
  connectionRef (app s) = Some c -> isOpen c s = true -> connectionReady s = true.
Proof. intros Hc Ho. unfold connectionReady. rewrite Hc. exact Ho. Qed.

(** While the connection is not ready, the chunks with data pile up. *)
Lemma feed_buffering (chunks : list Blob) (s : State) :
  connectionReady s = false ->
  feed chunks s = audioBufferRef_set (audioBufferRef (app s) ++ audible chunks) s.
Proof.
  revert s. induction chunks as [|data rest IH]; intros s Hnot; simpl.
  - rewrite app_nil_r. symmetry. apply audioBufferRef_set_same.
  - destruct (onDataAvailable_handled data s) as [Hz -> | c Hpos Hc Ho _ | Hpos _ ->].
    + rewrite IH by exact Hnot.
      replace (0 <? size data)%N with false by (symmetry; apply N.ltb_ge; lia).
      reflexivity.
    + rewrite (ready_when_open c s Hc Ho) in Hnot. discriminate.
    + apply N.ltb_lt in Hpos. rewrite Hpos. rewrite IH by exact Hnot.
      simpl. rewrite <- app_assoc. reflexivity.
Qed.

(** Once it is ready, the first chunk with data takes the buffer along. *)
Lemma feed_sending (c : ConnId) (chunks : list Blob) (s : State) :
  connectionRef (app s) = Some c -> isOpen c s = true ->
  feed chunks s =
  match audible chunks with
  | [] => s
  | _ => log_set (log (host s)
                  ++ stamped s c (audioBufferRef (app s) ++ audible chunks))
                 (audioBufferRef_set [] s)
  end.
Proof.
  revert s. induction chunks as [|data rest IH]; intros s Hc Ho; simpl; [reflexivity|].
  destruct (onDataAvailable_handled data s) as [Hz -> | c' Hpos Hc' _ -> | Hpos Hnot _].
  - replace (0 <? size data)%N with false by (symmetry; apply N.ltb_ge; lia).
    apply IH; assumption.
  - assert (c' = c) as -> by congruence.
    apply N.ltb_lt in Hpos. rewrite Hpos.
    rewrite IH by assumption. simpl.
    destruct (audible rest) as [|data' rest']; simpl.
    + reflexivity.
    + unfold log_set, audioBufferRef_set, stamped, onHost, onApp. simpl.
      rewrite !map_app. simpl. rewrite <- !app_assoc. reflexivity.
  - rewrite (ready_when_open c s Hc Ho) in Hnot. discriminate.
Qed.

Lemma sends_app (l1 l2 : list Effect) : sends (l1 ++ l2) = sends l1 ++ sends l2.
Proof. apply filter_app. Qed.

Lemma sends_Send (c : ConnId) (chunks : list Blob) :
  sends (map (Send c) chunks) = map (Send c) chunks.
Proof. induction chunks as [|x l IH]; simpl; [reflexivity | f_equal; exact IH]. Qed.

Lemma effects_stamped (s : State) (c : ConnId) (chunks : list Blob) :
  map snd (stamped s c chunks) = map (Send c) chunks.
Proof. unfold stamped. rewrite map_map. reflexivity. Qed.

Lemma sends_harmless (new : list (N * Effect)) (t : N) :
  Forall (fun entry => fst entry = t /\ harmless (snd entry)) new ->
  sends (map snd new) = [].
Proof.
  induction 1 as [|[stamp e] l [_ H] _ IH]; simpl; [reflexivity|].
  destruct e; simpl in *; try exact IH; contradiction.
Qed.

Lemma quietly_sends (s s' : State) :
  quietly s s' -> sends (effects s') = sends (effects s).
Proof.
  intros [_ [_ [new [E F]]]]. unfold effects. rewrite E, map_app, sends_app.
  rewrite (sends_harmless new _ F). apply app_nil_r.
Qed.

Lemma readyState_stopKeepAlive (s : State) :
  readyState (host (stopKeepAlive s)) = readyState (host s).
Proof. unfold stopKeepAlive. destruct (keepAliveIntervalRef (app s)); reflexivity. Qed.

Lemma readyState_onOpen (s : State) :
  readyState (host (onOpen s)) = readyState (host s).
Proof.
  unfold onOpen, startKeepAlive, setInterval, fresh. simpl.
  rewrite readyState_stopKeepAlive. reflexivity.
Qed.

Lemma readyState_opened (c : ConnId) (s : State) :
  readyState (host (resolveOpen c (onOpen s))) = readyState (host s).
Proof.
  unfold resolveOpen.
  destruct (takeAwaiting c (awaitingOpen (host (onOpen s)))) as [[r|] rest].
  - unfold handleStart_record. simpl. apply readyState_onOpen.
  - apply readyState_onOpen.
Qed.

(** C2, as the code has it: the chunks that carry data and arrive while the
    connection is not ready are buffered in arrival order; once the socket
    is open, the first chunk with data sends the whole buffer oldest first
    and then itself, and later chunks with data follow one by one, so the
    service receives every such chunk once, in capture order.  A chunk of
    size zero is skipped: it is neither sent nor buffered, and does not
    drain the buffer. *)
Theorem C2_buffer_then_flush_in_order (s : State) (c : ConnId) (early late : list Blob) :
  connectionRef (app s) = Some c ->
  isOpen c s = false ->
  let s1 := feed early s in
  let s2 := resolveOpen c (onOpen (readyState_set c 1 s1)) in
  let s3 := feed late s2 in
  audioBufferRef (app s1) = audioBufferRef (app s) ++ audible early /\
  sends (effects s1) = sends (effects s) /\
  sends (effects s3) =
    sends (effects s) ++
    match audible late with
    | [] => []
    | _ => map (Send c) (audioBufferRef (app s) ++ audible early ++ audible late)
    end /\
  audioBufferRef (app s3) =
    match audible late with [] => audioBufferRef (app s1) | _ => [] end.
Proof.
  intros Hc Hclosed s1 s2 s3.
  assert (Hnot : connectionReady s = false).
  { unfold connectionReady. rewrite Hc. exact Hclosed. }
  assert (E1 : s1 = audioBufferRef_set (audioBufferRef (app s) ++ audible early) s).
  { apply feed_buffering, Hnot. }
  assert (Q : quietly s1 s2).
  { eapply quietly_trans; [apply quietly_readyState_set|].
    eapply quietly_trans; [apply quietly_onOpen | apply quietly_resolveOpen]. }
  assert (C2 : core s2 = core s1) by apply Q.
  unfold core in C2. injection C2 as _ _ _ Hc2 Hb2.
  assert (Hc1 : connectionRef (app s1) = Some c) by (rewrite E1; exact Hc).
  assert (Ho2 : isOpen c s2 = true).
  { unfold isOpen, s2. rewrite readyState_opened. simpl. rewrite Nat.eqb_refl. reflexivity. }
  assert (E3 : s3 = match audible late with
                    | [] => s2
                    | _ => log_set (log (host s2) ++
                             stamped s2 c (audioBufferRef (app s2) ++ audible late))
                             (audioBufferRef_set [] s2)
                    end).
  { apply feed_sending; [congruence | exact Ho2]. }
  assert (S1 : sends (effects s1) = sends (effects s)) by (rewrite E1; reflexivity).
  assert (B1 : audioBufferRef (app s1) = audioBufferRef (app s) ++ audible early)
    by (rewrite E1; reflexivity).
  repeat split; auto.
  - rewrite E3. destruct (audible late) as [|data rest].
    + rewrite app_nil_r, (quietly_sends _ _ Q). exact S1.
    + unfold effects. simpl. rewrite map_app, sends_app, effects_stamped, sends_Send.
      fold (effects s2). rewrite (quietly_sends _ _ Q), S1, Hb2, B1, <- app_assoc.
      reflexivity.
  - rewrite E3. destruct (audible late); [congruence | reflexivity].
Qed.

Lemma C2_buffer_then_flush_in_order_witness :
  exists s,
    run (pressAndOpen ++ [SocketState 2 3]) (initial micKey) = Some s /\
    let early := [mkBlob 10 1; mkBlob 0 2; mkBlob 10 3] in
    let late := [mkBlob 0 4; mkBlob 10 5; mkBlob 10 6] in
    let s1 := feed early s in
    let s2 := resolveOpen 2 (onOpen (readyState_set 2 1 s1)) in
    let s3 := feed late s2 in
    audioBufferRef (app s1) = audioBufferRef (app s) ++ audible early /\
    sends (effects s1) = sends (effects s) /\
    sends (effects s3) =
      sends (effects s) ++
      match audible late with
      | [] => []
      | _ => map (Send 2) (audioBufferRef (app s) ++ audible early ++ audible late)
      end /\
    audioBufferRef (app s3) =
      match audible late with [] => audioBufferRef (app s1) | _ => [] end.
Proof.
  eexists. split; [vm_compute; reflexivity|].
  apply (C2_buffer_then_flush_in_order _ 2
           [mkBlob 10 1; mkBlob 0 2; mkBlob 10 3] [mkBlob 0 4; mkBlob 10 5; mkBlob 10 6]);
    vm_compute; reflexivity.
Defined.

(** C2 fails as stated: with the connection open, a chunk of size zero is
    neither sent nor appended to the buffer; and with one chunk waiting in
    the buffer, it does not drain the buffer either. *)
Lemma C2_counterexample :
  exists s,
    run pressAndOpen (initial micKey) = Some s /\
    connectionReady s = true /\
    step (DataAvailable 1 (mkBlob 0 9)) s = Some s /\
    sends (effects s) = [] /\
    audioBufferRef (app s) = [] /\
    let waiting := audioBufferRef_set [mkBlob 10 1] s in
    onDataAvailable (mkBlob 0 9) waiting = waiting /\
    audioBufferRef (app (onDataAvailable (mkBlob 0 9) waiting)) = [mkBlob 10 1].
Proof.
  eexists. split; [vm_compute; reflexivity|].
  split; [vm_compute; reflexivity|].
  split; [vm_compute; reflexivity|].
  vm_compute. repeat split.
Qed.

(** * Starting again *)

Lemma handleStart_record_mic (r : RecorderId) (s : State) :
  mic (handleStart_record r s) = mic s.
Proof. reflexivity. Qed.

Lemma handleStart_record_recorders (r r' : RecorderId) (s : State) :
  r' <> r -> recorders (host (handleStart_record r s)) r' = recorders (host s) r'.
Proof.
  intros Hne. unfold handleStart_record. simpl.
  apply Nat.eqb_neq in Hne. rewrite Hne. reflexivity.
Qed.

Lemma initConnection_mic (seen : Status) (s : State) :
  mic (snd (initConnection seen s)) = mic s /\
  recorders (host (snd (initConnection seen s))) = recorders (host s).
Proof.
  unfold initConnection, getDeepgramClient.
  destruct (connectionRef (app s)) as [c|]; [destruct seen|]; simpl;
    (destruct (DEEPGRAM_API_KEY (host s)) as [k|]; [destruct (Js.truthy k)|]);
    split; reflexivity.
Qed.

Lemma handleStart_connect_mic (seen : Status) (r : RecorderId) (s : State) :
  mic (handleStart_connect seen r s) = mic s /\
  forall r', r' <> r ->
    recorders (host (handleStart_connect seen r s)) r' = recorders (host s) r'.
Proof.
  unfold handleStart_connect.
  destruct (connectionReady s).
  - split; [reflexivity | intros r' Hne; apply handleStart_record_recorders, Hne].
  - destruct (initConnection_mic seen s) as [Hm Hr].
    destruct (initConnection seen s) as [[c|message|c] s1]; simpl in Hm, Hr.
    + split; [exact Hm|]. intros r' Hne.
      rewrite handleStart_record_recorders by exact Hne. rewrite Hr. reflexivity.
    + split; [exact Hm|]. intros r' _. simpl. rewrite Hr. reflexivity.
    + split; [exact Hm|]. intros r' _. simpl. rewrite Hr. reflexivity.
Qed.

(** C3, as the code has it: [startTalking] makes no test for a capture in
    progress.  Called while capturing, it asks for the microphone again,
    empties the audio buffer and clears the error and the interim
    transcript; when the microphone is granted it builds a new recorder,
    which replaces the stored capture handle, and leaves every earlier
    recorder as it is (not stopped). *)
Theorem C3_start_while_capturing_starts_again (s : State) :
  isRecording (mic s) = true ->
  (exists s1,
     step MouseDown s = Some s1 /\
     effects s1 = effects s ++ optional ClearTimeout (closeTimeoutRef (app s))
                            ++ [GetUserMedia] /\
     awaitingMic (host s1) = awaitingMic (host s) ++ [connectionStatus (app s)] /\
     audioBufferRef (app s1) = [] /\
     error (app s1) = None /\
     interimTranscript (app s1) = "" /\
     mic s1 = mic s) /\
  (forall i seen userStream isTypeSupported,
     nth_error (awaitingMic (host s)) i = Some seen ->
     exists s2 rest,
       step (MicGranted i userStream isTypeSupported) s = Some s2 /\
       effects s2 =
         effects s ++ NewMediaRecorder (nextId (host s)) userStream
                        (firstSupported isTypeSupported mimeTypes) :: rest /\
       recorder (mic s2) = Some (nextId (host s)) /\
       isRecording (mic s2) = true /\
       forall r, r <> nextId (host s) ->
         recorders (host s2) r = recorders (host s) r).
Proof.
  intros _. split.
  - eexists. split; [reflexivity|].
    unfold handleStart_begin, startMicrophone_request, effects.
    destruct (closeTimeoutRef (app s)) as [t|]; simpl;
      rewrite ?map_app; simpl; rewrite <- ?app_assoc;
      repeat split; reflexivity.
  - intros i seen userStream sup Hnth. unfold step. rewrite Hnth. cbv zeta.
    set (s0 := awaitingMic_set (removeNth i (awaitingMic (host s))) s).
    destruct (startMicrophone_granted userStream sup s0) as [r s1] eqn:E.
    unfold startMicrophone_granted, fresh in E. simpl in E.
    injection E as Er Es1.
    destruct (handleStart_connect_mic seen r s1) as [Hm Hr].
    destruct (starting_handleStart_connect seen r s1) as [_ [_ [_ [_ [rest [Hl _]]]]]].
    exists (handleStart_connect seen r s1), (map snd rest).
    split; [reflexivity|].
    split; [|split; [|split]].
    + unfold effects. rewrite Hl, map_app. rewrite <- Es1. simpl.
      rewrite map_app, <- app_assoc. reflexivity.
    + rewrite Hm, <- Es1. reflexivity.
    + rewrite Hm, <- Es1. reflexivity.
    + intros r' Hne. rewrite Hr by (rewrite <- Er; exact Hne).
      rewrite <- Es1. simpl. apply Nat.eqb_neq in Hne. rewrite Hne. reflexivity.
Qed.

Lemma C3_start_while_capturing_starts_again_witness :
  exists s,
    run (pressAndOpen ++ [MouseDown]) (initial micKey) = Some s /\
    isRecording (mic s) = true /\
    nth_error (awaitingMic (host s)) 0 = Some online /\
    (exists s1,
       step MouseDown s = Some s1 /\
       effects s1 = effects s ++ optional ClearTimeout (closeTimeoutRef (app s))
                              ++ [GetUserMedia] /\
       awaitingMic (host s1) = awaitingMic (host s) ++ [connectionStatus (app s)] /\
       audioBufferRef (app s1) = [] /\
       error (app s1) = None /\
       interimTranscript (app s1) = "" /\
       mic s1 = mic s) /\
    (exists s2 rest,
       step (MicGranted 0 8 webmOnly) s = Some s2 /\
       effects s2 =
         effects s ++ NewMediaRecorder (nextId (host s)) 8
                        (firstSupported webmOnly mimeTypes) :: rest /\
       recorder (mic s2) = Some (nextId (host s)) /\
       isRecording (mic s2) = true /\
       forall r, r <> nextId (host s) ->
         recorders (host s2) r = recorders (host s) r).
Proof.
  eexists. split; [vm_compute; reflexivity|].
  split; [vm_compute; reflexivity|].
  split; [vm_compute; reflexivity|].
  match goal with
  | |- (exists s1, step MouseDown ?s = _ /\ _) /\ _ =>
      pose proof (C3_start_while_capturing_starts_again s) as H
  end.
  destruct H as [H1 H2]; [vm_compute; reflexivity|].
  split; [exact H1|].
  apply (H2 0 online 8 webmOnly). vm_compute. reflexivity.
Defined.

(** C3 fails as stated: a second press while recorder 1 is capturing asks
    for the microphone a second time; once granted, recorder 4 is built on
    the new stream and started, it replaces recorder 1 as the stored
    handle, and recorder 1 goes on recording. *)
Lemma C3_counterexample :
  exists s s',
    run pressAndOpen (initial micKey) = Some s /\
    isRecording (mic s) = true /\
    recorder (mic s) = Some 1 /\
    run [MouseDown; MicGranted 0 8 webmOnly] s = Some s' /\
    recorder (mic s') = Some 4 /\
    effects s' =
      effects s ++ [GetUserMedia; NewMediaRecorder 4 8 "audio/webm"; RecorderStart 4 200] /\
    recorderActive 1 s' = true /\
    recorderActive 4 s' = true.
Proof.
  eexists. eexists. split; [vm_compute; reflexivity|].
  split; [reflexivity|]. split; [reflexivity|].
  split; [vm_compute; reflexivity|].
  vm_compute. repeat split.
Qed.

(** * What each event does to the core and to the log *)

(** Compute the cells of a state built by the setters. *)
Ltac norm :=
  cbv beta iota zeta delta
    [app mic host transcription interimTranscript connectionStatus error connectionRef
     audioBufferRef closeTimeoutRef keepAliveIntervalRef stream recorder isRecording
     mediaStreamRef now timeouts intervals readyState recorders awaitingMic awaitingOpen
     nextId DEEPGRAM_API_KEY log
     setTranscription setInterimTranscript setConnectionStatus setError
     connectionRef_set audioBufferRef_set closeTimeoutRef_set keepAliveIntervalRef_set
     setStream setRecorder setIsRecording mediaStreamRef_set now_set timeouts_set
     intervals_set readyState_set recorders_set awaitingMic_set awaitingOpen_set
     nextId_set log_set onApp onMic onHost emit fresh clearTimeout clearInterval
     setTimeout setInterval core cleared at_now optional].

Lemma step_MouseDown (s s' : State) :
  step MouseDown s = Some s' ->
  core s' = (now (host s), cleared (closeTimeoutRef (app s)) (timeouts (host s)),
             None, connectionRef (app s), []) /\
  log (host s') =
    log (host s) ++ at_now s (optional ClearTimeout (closeTimeoutRef (app s))
                              ++ [GetUserMedia]).
Proof.
  unfold step. intros E. injection E as <-.
  unfold handleStart_begin, startMicrophone_request, core, cleared, at_now.
  destruct (closeTimeoutRef (app s)) as [t|] eqn:Hct; simpl; rewrite ?Hct;
    rewrite <- ?app_assoc; split; reflexivity.
Qed.

Lemma step_MouseUp (s s' : State) :
  step MouseUp s = Some s' ->
  exists t new,
    core s' = (now (host s),
               cleared (closeTimeoutRef (app s)) (timeouts (host s))
                 ++ [(t, (now (host s) + 60000)%N)],
               Some t, connectionRef (app s), audioBufferRef (app s)) /\
    log (host s') =
      log (host s) ++ new ++ at_now s (optional ClearTimeout (closeTimeoutRef (app s))
                                       ++ [SetTimeout t 60000]) /\
    Forall (fun entry => fst entry = now (host s) /\ harmless (snd entry)) new.
Proof.
  unfold step. intros E. injection E as <-. unfold handleStop. cbv zeta.
  pose proof (quietly_trans _ _ _ (quietly_stopMicrophone s)
                (quietly_setInterimTranscript "" (stopMicrophone s)))
    as [C [_ [new [L F]]]].
  set (s1 := setInterimTranscript "" (stopMicrophone s)) in *. clearbody s1.
  unfold core in C. injection C as Hn Ht Hc Hr Hb.
  exists (nextId (host s1)), new.
  unfold core, cleared, at_now, setTimeout, fresh.
  rewrite <- Hn, <- Ht, <- Hc, <- Hr, <- Hb.
  destruct (closeTimeoutRef (app s1)) as [t|] eqn:Hct; simpl; rewrite ?Hct, L;
    rewrite <- ?app_assoc; repeat split; try reflexivity; rewrite Hn; exact F.
Qed.

Lemma step_GraceExpires (t : TimerId) (s s' : State) :
  step (GraceExpires t) s = Some s' ->
  (exists due, dueTime t s = Some due /\ (due <= now (host s))%N) /\
  core s' = (now (host s), removeTimeout t (timeouts (host s)),
             closeTimeoutRef (app s), None, audioBufferRef (app s)) /\
  log (host s') =
    log (host s) ++ at_now s (optional Finish (connectionRef (app s))
                              ++ optional ClearInterval (keepAliveIntervalRef (app s))) /\
  connectionStatus (app s') = offline /\
  keepAliveIntervalRef (app s') = None /\
  (forall k, keepAliveIntervalRef (app s) = Some k ->
     existsb (Nat.eqb k) (intervals (host s')) = false).
Proof.
  unfold step. destruct (dueTime t s) as [due|]; [|discriminate].
  destruct (due <=? now (host s))%N eqn:Hdue; [|discriminate].
  intros E. injection E as <-. split.
  - exists due. split; [reflexivity | apply N.leb_le, Hdue].
  - unfold closeConnection, stopKeepAlive.
    destruct s as [[tr it st er cr ab ct ka] m [nw tos ins rdy recs aM aO nx key lg]].
    destruct cr as [c|], ka as [k|]; norm;
      rewrite <- ?app_assoc, ?app_nil_r;
      refine (conj _ (conj _ (conj _ (conj _ _)))); try reflexivity;
      intros k' Hk; try discriminate Hk;
      injection Hk as <-; apply existsb_removeInterval.
Qed.

Lemma step_Unmount (s s' : State) :
  step Unmount s = Some s' ->
  core s' = (now (host s), cleared (closeTimeoutRef (app s)) (timeouts (host s)),
             closeTimeoutRef (app s), connectionRef (app s), audioBufferRef (app s)) /\
  log (host s') =
    log (host s) ++ at_now s (optional ClearTimeout (closeTimeoutRef (app s))
                              ++ optional ClearInterval (keepAliveIntervalRef (app s))
                              ++ optional Finish (connectionRef (app s))).
Proof.
  unfold step. intros E. injection E as <-.
  unfold teardown, stopKeepAlive.
  destruct s as [[tr it st er cr ab ct ka] m [nw tos ins rdy recs aM aO nx key lg]].
  destruct ct as [t|], ka as [k|], cr as [c|]; norm;
    rewrite <- ?app_assoc, ?app_nil_r; split; reflexivity.
Qed.

Lemma step_Elapse (ms : N) (s s' : State) :
  step (Elapse ms) s = Some s' ->
  core s' = ((now (host s) + ms)%N, timeouts (host s), closeTimeoutRef (app s),
             connectionRef (app s), audioBufferRef (app s)) /\
  log (host s') = log (host s).
Proof. unfold step. intros E. injection E as <-. split; reflexivity. Qed.

Lemma step_DataAvailable (r : RecorderId) (data : Blob) (s s' : State) :
  step (DataAvailable r data) s = Some s' -> handled data s s'.
Proof.
  unfold step. destruct (recorders (host s) r) as [info|]; [|discriminate].
  destruct (ondataavailable info); [|discriminate].
  intros E. injection E as <-. apply onDataAvailable_handled.
Qed.

(** Bring the hypothesis [H : step e s = Some s'] to the footprint of [e]. *)
Ltac by_event e H :=
  destruct e;
  first [ apply step_silent in H; [|reflexivity]
        | apply step_MicGranted in H
        | apply step_MouseDown in H
        | apply step_MouseUp in H
        | apply step_Elapse in H
        | apply step_GraceExpires in H
        | apply step_Unmount in H
        | apply step_DataAvailable in H ].

Lemma harmless_allowed (e : Event) (s : State) (eff : Effect) :
  harmless eff -> allowed e s eff.
Proof. destruct eff; simpl; intros H; auto; contradiction. Qed.

Lemma opening_allowed (e : Event) (s : State) (eff : Effect) :
  opening eff -> allowed e s eff.
Proof. destruct eff; simpl; intros H; auto; contradiction. Qed.

Lemma logged_entry_ok (P : Effect -> Prop) (e : Event) (s s' : State) :
  (forall eff, P eff -> allowed e s eff) ->
  logged P s s' ->
  exists new, log (host s') = log (host s) ++ new /\ Forall (entry_ok e s) new.
Proof.
  intros HP [_ [new [L F]]]. exists new. split; [exact L|].
  eapply Forall_impl; [|exact F]. intros entry [H1 H2]. split; auto.
Qed.

Lemma at_now_entry_ok (e : Event) (s : State) (effs : list Effect) :
  Forall (allowed e s) effs -> Forall (entry_ok e s) (at_now s effs).
Proof.
  induction 1 as [|eff l H _ IH]; simpl; constructor; auto. split; auto.
Qed.

Lemma stamped_entry_ok (e : Event) (s : State) (c : ConnId) (chunks : list Blob) :
  incl chunks (audioBufferRef (app s) ++ captured [e]) ->
  Forall (entry_ok e s) (stamped s c chunks).
Proof.
  induction chunks as [|chunk l IH]; intros Hin; simpl; constructor.
  - split; [reflexivity|]. simpl. apply Hin. left. reflexivity.
  - apply IH. intros x Hx. apply Hin. right. exact Hx.
Qed.

(** Every step extends the log by entries that are stamped and allowed. *)
Lemma step_log (e : Event) (s s' : State) :
  step e s = Some s' ->
  exists new, log (host s') = log (host s) ++ new /\ Forall (entry_ok e s) new.
Proof.
  intros H. by_event e H.
  - (* MouseDown *)
    destruct H as [_ L]. eexists. split; [exact L|].
    apply at_now_entry_ok.
    destruct (closeTimeoutRef (app s)); simpl; repeat constructor.
  - (* MicGranted *)
    destruct H as [_ [_ [_ L]]].
    exact (logged_entry_ok _ _ _ _ (opening_allowed _ _) L).
  - exact (logged_entry_ok _ _ _ _ (harmless_allowed _ _) (proj2 H)).
  - exact (logged_entry_ok _ _ _ _ (harmless_allowed _ _) (proj2 H)).
  - exact (logged_entry_ok _ _ _ _ (harmless_allowed _ _) (proj2 H)).
  - exact (logged_entry_ok _ _ _ _ (harmless_allowed _ _) (proj2 H)).
  - exact (logged_entry_ok _ _ _ _ (harmless_allowed _ _) (proj2 H)).
  - exact (logged_entry_ok _ _ _ _ (harmless_allowed _ _) (proj2 H)).
  - (* DataAvailable *)
    destruct H as [_ -> | c _ _ _ -> | _ _ ->].
    + exists []. rewrite app_nil_r. split; [reflexivity | constructor].
    + eexists. split; [reflexivity|]. apply stamped_entry_ok. simpl.
      apply incl_refl.
    + exists []. rewrite app_nil_r. split; [reflexivity | constructor].
  - exact (logged_entry_ok _ _ _ _ (harmless_allowed _ _) (proj2 H)).
  - (* MouseUp *)
    destruct H as [t [new [_ [L F]]]]. eexists. split; [exact L|].
    apply Forall_app. split.
    + eapply Forall_impl; [|exact F]. intros entry [H1 H2].
      split; [exact H1 | apply harmless_allowed, H2].
    + apply at_now_entry_ok.
      destruct (closeTimeoutRef (app s)); simpl; repeat constructor.
  - (* Elapse *)
    destruct H as [_ L]. exists []. rewrite app_nil_r.
    split; [exact L | constructor].
  - (* GraceExpires *)
    destruct H as [_ [_ [L _]]]. eexists. split; [exact L|].
    apply at_now_entry_ok.
    destruct (connectionRef (app s)) eqn:Hc, (keepAliveIntervalRef (app s));
      simpl; repeat constructor; simpl; auto.
  - exact (logged_entry_ok _ _ _ _ (harmless_allowed _ _) (proj2 H)).
  - (* Unmount *)
    destruct H as [_ L]. eexists. split; [exact L|].
    apply at_now_entry_ok.
    destruct (closeTimeoutRef (app s)), (keepAliveIntervalRef (app s)),
      (connectionRef (app s)) eqn:Hc; simpl; repeat constructor; simpl; auto.
Qed.

(** The buffer only ever takes the chunk just handed over. *)
Lemma step_buffer (e : Event) (s s' : State) :
  step e s = Some s' ->
  incl (audioBufferRef (app s')) (audioBufferRef (app s) ++ captured [e]).
Proof.
  assert (Hcore : forall e0, core s' = core s ->
            incl (audioBufferRef (app s')) (audioBufferRef (app s) ++ captured [e0])).
  { intros e0 C. unfold core in C. injection C as _ _ _ _ ->. apply incl_appl, incl_refl. }
  intros H. by_event e H; try (apply Hcore, H).
  - destruct H as [C _]. unfold core in C. injection C as _ _ _ _ ->. intros x [].
  - destruct H as [_ [_ [-> _]]]. apply incl_appl, incl_refl.
  - destruct H as [_ -> | c _ _ _ -> | _ _ ->]; simpl.
    + apply incl_appl, incl_refl.
    + intros x [].
    + apply incl_refl.
  - destruct H as [t [new [C _]]]. unfold core in C. injection C as _ _ _ _ ->.
    apply incl_appl, incl_refl.
  - destruct H as [C _]. unfold core in C. injection C as _ _ _ _ ->.
    apply incl_appl, incl_refl.
  - destruct H as [_ [C _]]. unfold core in C. injection C as _ _ _ _ ->.
    apply incl_appl, incl_refl.
  - destruct H as [C _]. unfold core in C. injection C as _ _ _ _ ->.
    apply incl_appl, incl_refl.
Qed.

(** * Runs of events *)

Lemma run_app (evs1 evs2 : list Event) (s : State) :
  run (evs1 ++ evs2) s =
  match run evs1 s with Some s1 => run evs2 s1 | None => None end.
Proof.
  revert s. induction evs1 as [|e evs1 IH]; intros s; simpl; [reflexivity|].
  destruct (step e s); [apply IH | reflexivity].
Qed.

Lemma captured_cons (e : Event) (evs : list Event) :
  captured (e :: evs) = captured [e] ++ captured evs.
Proof. destruct e; reflexivity. Qed.

Lemma run_opensFixed (evs : list Event) (s s' : State) :
  run evs s = Some s' ->
  Forall opensFixed (log (host s)) -> Forall opensFixed (log (host s')).
Proof.
  revert s. induction evs as [|e evs IH]; intros s; simpl.
  - intros E. injection E as <-. auto.
  - destruct (step e s) as [s1|] eqn:Hstep; [|discriminate].
    intros Hrun Hlog. apply (IH s1 Hrun).
    destruct (step_log e s s1 Hstep) as [new [L F]]. rewrite L.
    apply Forall_app. split; [exact Hlog|].
    eapply Forall_impl; [|exact F].
    intros [stamp eff] [_ Hok]. unfold opensFixed. simpl in *.
    destruct eff; auto.
Qed.

(** C10: whatever the user, the browser and the service do, every
    connection the component opens is opened with model "nova", language
    "en-US" and smart formatting on; [createTranscriptionConnection] takes
    the client only and passes exactly these options. *)
Theorem C10_connections_use_fixed_options
    (key : option string) (evs : list Event) (s : State) :
  run evs (initial key) = Some s ->
  (forall stamp c deepgram opts,
     In (stamp, ListenLive c deepgram opts) (log (host s)) ->
     model opts = "nova" /\ language opts = "en-US" /\ smart_format opts = true) /\
  (forall deepgram s0,
     effects (snd (createTranscriptionConnection deepgram s0)) =
     effects s0 ++ [ListenLive (fst (createTranscriptionConnection deepgram s0)) deepgram
                      {| model := "nova"; language := "en-US"; smart_format := true |}]).
Proof.
  intros Hrun. split.
  - intros stamp c dg opts Hin.
    assert (F : Forall opensFixed (log (host s))).
    { apply (run_opensFixed evs (initial key) s Hrun). constructor. }
    rewrite Forall_forall in F. specialize (F _ Hin). unfold opensFixed in F.
    simpl in F. subst opts. repeat split.
  - intros dg s0. unfold createTranscriptionConnection, listen_live, fresh. simpl.
    rewrite effects_emit. reflexivity.
Qed.

Lemma C10_connections_use_fixed_options_witness :
  exists s,
    run (pressAndOpen ++ [ConnError 2 None; MouseDown; MicGranted 0 8 webmOnly])
        (initial micKey) = Some s /\
    (forall stamp c deepgram opts,
       In (stamp, ListenLive c deepgram opts) (log (host s)) ->
       model opts = "nova" /\ language opts = "en-US" /\ smart_format opts = true) /\
    (forall deepgram s0,
       effects (snd (createTranscriptionConnection deepgram s0)) =
       effects s0 ++ [ListenLive (fst (createTranscriptionConnection deepgram s0)) deepgram
                        {| model := "nova"; language := "en-US"; smart_format := true |}]).
Proof.
  eexists. split; [vm_compute; reflexivity|].
  apply (C10_connections_use_fixed_options micKey
           (pressAndOpen ++ [ConnError 2 None; MouseDown; MicGranted 0 8 webmOnly])).
  vm_compute. reflexivity.
Defined.

(** The chunks sent in a run were in the buffer at its start or were handed
    over during it. *)
Lemma run_sends (evs : list Event) (s s' : State) (known : list Blob) :
  run evs s = Some s' ->
  incl (audioBufferRef (app s)) known ->
  incl (audioBufferRef (app s')) (known ++ captured evs) /\
  exists new,
    log (host s') = log (host s) ++ new /\
    forall stamp c chunk,
      In (stamp, Send c chunk) new -> In chunk (known ++ captured evs).
Proof.
  revert s known. induction evs as [|e evs IH]; intros s known; cbn [run].
  - cbn [captured]. intros E Hk. injection E as <-. split.
    + rewrite app_nil_r. exact Hk.
    + exists []. rewrite app_nil_r. split; [reflexivity|]. intros ? ? ? [].
  - destruct (step e s) as [s1|] eqn:Hstep; [|discriminate].
    intros Hrun Hk.
    assert (Hk1 : incl (audioBufferRef (app s1)) (known ++ captured [e])).
    { intros x Hx. apply (step_buffer e s s1 Hstep) in Hx.
      apply in_app_or in Hx as [Hx|Hx]; apply in_or_app; auto. }
    destruct (IH s1 (known ++ captured [e]) Hrun Hk1) as [Hb [new2 [L2 S2]]].
    destruct (step_log e s s1 Hstep) as [new1 [L1 F1]].
    rewrite captured_cons, app_assoc. split; [exact Hb|].
    exists (new1 ++ new2). split.
    + rewrite L2, L1, app_assoc. reflexivity.
    + intros stamp c chunk Hin. apply in_app_or in Hin as [Hin|Hin].
      * rewrite Forall_forall in F1. destruct (F1 _ Hin) as [_ Hal]. simpl in Hal.
        apply in_or_app. left.
        apply in_app_or in Hal as [Hal|Hal]; apply in_or_app; auto.
      * exact (S2 _ _ _ Hin).
Qed.

(** C1, as the code has it: an error event leaves the buffered chunks in
    the buffer, but the next [startTalking] call empties the buffer before
    it asks for the microphone.  The chunks buffered before that call are
    dropped: every chunk sent from then on, on any connection, is one the
    recorders hand over after the call. *)
Theorem C1_buffer_survives_error_not_restart
    (s s' s1 s2 : State) (c : ConnId) (message : option string) (evs : list Event) :
  step (ConnError c message) s = Some s' ->
  step MouseDown s' = Some s1 ->
  run evs s1 = Some s2 ->
  audioBufferRef (app s') = audioBufferRef (app s) /\
  audioBufferRef (app s1) = [] /\
  exists new,
    log (host s2) = log (host s') ++ new /\
    forall stamp c' chunk, In (stamp, Send c' chunk) new -> In chunk (captured evs).
Proof.
  intros Herr Hdown Hrun. split.
  - apply step_silent in Herr; [|reflexivity].
    destruct Herr as [C _]. unfold core in C. congruence.
  - pose proof (step_MouseDown s' s1 Hdown) as [C L1].
    unfold core in C. injection C as _ _ _ _ Hb. split; [exact Hb|].
    destruct (run_sends evs s1 s2 [] Hrun) as [_ [new [L2 S2]]].
    { rewrite Hb. apply incl_refl. }
    eexists. split.
    + rewrite L2, L1, <- app_assoc. reflexivity.
    + intros stamp c' chunk Hin. apply in_app_or in Hin as [Hin|Hin].
      * exfalso. unfold at_now in Hin. apply in_map_iff in Hin as [eff [Heq Hin]].
        injection Heq as _ ->.
        destruct (closeTimeoutRef (app s')); simpl in Hin;
          repeat (destruct Hin as [Hin|Hin]; [discriminate Hin|]); exact Hin.
      * exact (S2 _ _ _ Hin).
Qed.

Lemma C1_buffer_survives_error_not_restart_witness :
  exists s s' s1 s2,
    run dropAndBuffer (initial micKey) = Some s /\
    step (ConnError 2 (Some "socket")) s = Some s' /\
    step MouseDown s' = Some s1 /\
    run grantedAgain s1 = Some s2 /\
    audioBufferRef (app s') = audioBufferRef (app s) /\
    audioBufferRef (app s1) = [] /\
    exists new,
      log (host s2) = log (host s') ++ new /\
      forall stamp c' chunk,
        In (stamp, Send c' chunk) new -> In chunk (captured grantedAgain).
Proof.
  eexists. eexists. eexists. eexists.
  split; [vm_compute; reflexivity|].
  split; [vm_compute; reflexivity|].
  split; [vm_compute; reflexivity|].
  split; [vm_compute; reflexivity|].
  apply (C1_buffer_survives_error_not_restart _ _ _ _ 2 (Some "socket") grantedAgain);
    vm_compute; reflexivity.
Defined.

(** C1 fails as stated: chunks 2 and 3 are in the buffer when the error
    fires and are still there after it; the next press empties the buffer,
    and the only chunk sent on the reopened connection 5 is chunk 4. *)
Lemma C1_counterexample :
  exists s s' s2,
    run dropAndBuffer (initial micKey) = Some s /\
    audioBufferRef (app s) = [chunk 2; chunk 3] /\
    step (ConnError 2 (Some "socket")) s = Some s' /\
    connectionStatus (app s') = error_ /\
    audioBufferRef (app s') = [chunk 2; chunk 3] /\
    run (MouseDown :: grantedAgain) s' = Some s2 /\
    connectionRef (app s2) = Some 5 /\
    sentOn 5 (effects s2) = [chunk 4] /\
    sends (effects s2) = [Send 2 (chunk 1); Send 5 (chunk 4)] /\
    ~ (exists rest, sentOn 5 (effects s2) = chunk 2 :: chunk 3 :: rest).
Proof.
  eexists. eexists. eexists.
  split; [vm_compute; reflexivity|].
  split; [vm_compute; reflexivity|].
  split; [vm_compute; reflexivity|].
  split; [vm_compute; reflexivity|].
  split; [vm_compute; reflexivity|].
  split; [vm_compute; reflexivity|].
  vm_compute. repeat split. intros [rest H]. discriminate H.
Qed.

(** * The grace period *)

Lemma in_removeTimeout (t t' : TimerId) (due : N) (l : list (TimerId * N)) :
  In (t', due) (removeTimeout t l) -> In (t', due) l /\ t' <> t.
Proof.
  unfold removeTimeout. intros H. apply filter_In in H as [Hin Hne]. split; [exact Hin|].
  simpl in Hne. apply negb_true_iff, Nat.eqb_neq in Hne. exact Hne.
Qed.

Lemma in_cleared (handle : option TimerId) (t : TimerId) (due : N)
    (l : list (TimerId * N)) :
  In (t, due) (cleared handle l) -> In (t, due) l /\ handle <> Some t.
Proof.
  destruct handle as [t0|]; simpl.
  - intros H. apply in_removeTimeout in H as [Hin Hne]. split; [exact Hin|]. congruence.
  - intros H. split; [exact H | discriminate].
Qed.

Lemma cleared_when_ok (s : State) :
  timers_ok s -> cleared (closeTimeoutRef (app s)) (timeouts (host s)) = [].
Proof.
  intros Hok.
  destruct (cleared (closeTimeoutRef (app s)) (timeouts (host s))) as [|[t d] l] eqn:E;
    [reflexivity|].
  assert (Hin : In (t, d) (cleared (closeTimeoutRef (app s)) (timeouts (host s)))).
  { rewrite E. left. reflexivity. }
  apply in_cleared in Hin as [Hin Hne]. elim Hne. exact (Hok _ _ Hin).
Qed.

Lemma timers_ok_core (s s' : State) :
  timeouts (host s') = timeouts (host s) ->
  closeTimeoutRef (app s') = closeTimeoutRef (app s) ->
  timers_ok s -> timers_ok s'.
Proof. unfold timers_ok. intros -> ->. auto. Qed.

(** At most the timeout held in [closeTimeoutRef] is pending. *)
Lemma step_timers_ok (e : Event) (s s' : State) :
  step e s = Some s' -> timers_ok s -> timers_ok s'.
Proof.
  assert (Hq : quietly s s' -> timers_ok s -> timers_ok s').
  { intros [C _]. unfold core in C. injection C as _ Ht Hc _ _.
    apply timers_ok_core; assumption. }
  intros H Hok. by_event e H; try (apply Hq; assumption).
  - destruct H as [C _]. unfold core in C. injection C as _ Ht Hc _ _.
    intros t d Hin. rewrite Ht, (cleared_when_ok s Hok) in Hin. destruct Hin.
  - destruct H as [Ht [Hc _]]. exact (timers_ok_core s s' Ht Hc Hok).
  - destruct H as [_ -> | c _ _ _ -> | _ _ ->]; exact Hok.
  - destruct H as [t [new [C _]]]. unfold core in C. injection C as _ Ht Hc _ _.
    intros t' d Hin. rewrite Ht, (cleared_when_ok s Hok) in Hin.
    destruct Hin as [Hin|[]]. rewrite Hc. congruence.
  - destruct H as [C _]. unfold core in C. injection C as _ Ht Hc _ _.
    exact (timers_ok_core s s' Ht Hc Hok).
  - destruct H as [_ [C _]]. unfold core in C. injection C as _ Ht Hc _ _.
    intros t' d Hin. rewrite Ht in Hin. apply in_removeTimeout in Hin as [Hin _].
    rewrite Hc. exact (Hok _ _ Hin).
  - destruct H as [C _]. unfold core in C. injection C as _ Ht Hc _ _.
    intros t d Hin. rewrite Ht, (cleared_when_ok s Hok) in Hin. destruct Hin.
Qed.

Lemma run_timers_ok (evs : list Event) (s s' : State) :
  run evs s = Some s' -> timers_ok s -> timers_ok s'.
Proof.
  revert s. induction evs as [|e evs IH]; intros s; cbn [run].
  - intros E. injection E as <-. auto.
  - destruct (step e s) as [s1|] eqn:Hstep; [|discriminate].
    intros Hrun Hok. exact (IH s1 Hrun (step_timers_ok e s s1 Hstep Hok)).
Qed.

Lemma initial_timers_ok (key : option string) : timers_ok (initial key).
Proof. intros t d []. Qed.

Lemma countFinish_app (l1 l2 : list (N * Effect)) :
  countFinish (l1 ++ l2) = countFinish l1 + countFinish l2.
Proof. unfold countFinish. rewrite filter_app, length_app. reflexivity. Qed.

Lemma countFinish_none (l : list (N * Effect)) :
  Forall (fun entry => isFinish (snd entry) = false) l -> countFinish l = 0.
Proof.
  unfold countFinish. induction 1 as [|x l H _ IH]; simpl; [reflexivity|].
  rewrite H. exact IH.
Qed.

Lemma entry_ok_no_finish (e : Event) (s : State) (entry : N * Effect) :
  match e with GraceExpires _ | Unmount => False | _ => True end ->
  entry_ok e s entry -> isFinish (snd entry) = false.
Proof.
  intros He [_ Hal]. destruct (snd entry); try reflexivity.
  simpl in Hal. destruct Hal as [_ Hal]. destruct e; contradiction.
Qed.

Lemma graceInv_step (deadline : N) (base new1 : list (N * Effect)) (s s' : State) :
  graceInv deadline base s ->
  (forall t due, In (t, due) (timeouts (host s')) ->
     In (t, due) (timeouts (host s)) \/ due = (now (host s) + 60000)%N) ->
  (now (host s) <= now (host s'))%N ->
  log (host s') = log (host s) ++ new1 ->
  (forall stamp eff, In (stamp, eff) new1 -> isFinish eff = true ->
     (deadline <= stamp)%N) ->
  (countFinish new1 = 0 /\ connectionRef (app s') = connectionRef (app s)) \/
  (connectionRef (app s') = None /\ countFinish new1 <= 1 /\
   (connectionRef (app s) = None -> countFinish new1 = 0)) ->
  graceInv deadline base s'.
Proof.
  intros [Ht [Hn [new [L [Hs [Hc Hr]]]]]] Ht' Hn' L' Hs' Hcases.
  split; [|split].
  - intros t due Hin. destruct (Ht' t due Hin) as [Hin'| ->]; [eauto | exact Hn].
  - lia.
  - exists (new ++ new1). split; [rewrite L', L, app_assoc; reflexivity|].
    split; [|split].
    + intros stamp eff Hin. apply in_app_or in Hin as [Hin|Hin]; eauto.
    + rewrite countFinish_app.
      destruct Hcases as [[H0 _] | [_ [H1 H2]]]; [lia|].
      destruct (Nat.eq_dec (countFinish new) 1) as [E|E]; [|lia].
      rewrite (H2 (Hr E)). lia.
    + rewrite countFinish_app. intros Hone.
      destruct Hcases as [[H0 Hsame] | [Hnone _]]; [|exact Hnone].
      rewrite Hsame. apply Hr. lia.
Qed.

Lemma graceInv_quiet_core (deadline : N) (base new1 : list (N * Effect))
    (e : Event) (s s' : State) :
  match e with GraceExpires _ | Unmount => False | _ => True end ->
  graceInv deadline base s ->
  timeouts (host s') = timeouts (host s) ->
  now (host s') = now (host s) ->
  connectionRef (app s') = connectionRef (app s) ->
  log (host s') = log (host s) ++ new1 ->
  Forall (entry_ok e s) new1 ->
  graceInv deadline base s'.
Proof.
  intros He Hinv Ht Hn Hc L F.
  assert (Hno : Forall (fun entry => isFinish (snd entry) = false) new1).
  { eapply Forall_impl; [|exact F]. intros entry. apply entry_ok_no_finish, He. }
  apply (graceInv_step deadline base new1 s s' Hinv).
  - intros t due Hin. left. rewrite <- Ht. exact Hin.
  - rewrite Hn. lia.
  - exact L.
  - intros stamp eff Hin Hfin. rewrite Forall_forall in Hno.
    specialize (Hno _ Hin). simpl in Hno. congruence.
  - left. split; [apply countFinish_none, Hno | exact Hc].
Qed.

Lemma step_graceInv (deadline : N) (base : list (N * Effect))
    (e : Event) (s s' : State) :
  quiet e = true ->
  step e s = Some s' ->
  graceInv deadline base s -> graceInv deadline base s'.
Proof.
  intros Hq H Hinv.
  destruct (step_log e s s' H) as [new1 [L F]].
  assert (Hsilent : match e with GraceExpires _ | Unmount => False | _ => True end ->
                    quietly s s' -> graceInv deadline base s').
  { intros He [C _]. unfold core in C. injection C as Hn Ht _ Hc _.
    exact (graceInv_quiet_core deadline base new1 e s s' He Hinv Ht Hn Hc L F). }
  by_event e H; try discriminate Hq; try (apply Hsilent; [exact I | exact H]).
  - (* DataAvailable *)
    apply (graceInv_quiet_core deadline base new1 (DataAvailable r data) s s');
      auto; destruct H as [_ -> | c _ _ _ -> | _ _ ->]; reflexivity.
  - (* MouseUp *)
    destruct H as [t [new [C _]]]. unfold core in C. injection C as Hn Ht _ Hc _.
    apply (graceInv_step deadline base new1 s s' Hinv); auto.
    + intros t' due Hin. rewrite Ht in Hin. apply in_app_or in Hin as [Hin|Hin].
      * left. apply in_cleared in Hin. apply Hin.
      * right. destruct Hin as [Hin|[]]. congruence.
    + rewrite Hn. lia.
    + intros stamp eff Hin Hfin. rewrite Forall_forall in F.
      pose proof (entry_ok_no_finish MouseUp s _ I (F _ Hin)) as Hno.
      simpl in Hno. congruence.
    + left. split; [|exact Hc]. apply countFinish_none.
      eapply Forall_impl; [|exact F]. intros entry. apply entry_ok_no_finish. exact I.
  - (* Elapse *)
    destruct H as [C L']. unfold core in C. injection C as Hn Ht _ Hc _.
    apply (graceInv_step deadline base [] s s' Hinv).
    + intros t due Hin. left. rewrite <- Ht. exact Hin.
    + rewrite Hn. lia.
    + rewrite app_nil_r. exact L'.
    + intros ? ? [].
    + left. split; [reflexivity | exact Hc].
  - (* GraceExpires *)
    destruct H as [[due [Hdue Hle]] [C [L' _]]].
    unfold core in C. injection C as Hn Ht _ Hc _.
    assert (Hin : In (t, due) (timeouts (host s))).
    { unfold dueTime in Hdue.
      destruct (find (fun p => Nat.eqb (fst p) t) (timeouts (host s))) as [[t' d']|] eqn:Hf;
        [|discriminate].
      simpl in Hdue. injection Hdue as ->.
      apply find_some in Hf as [Hf Heq]. simpl in Heq.
      apply Nat.eqb_eq in Heq. subst t'. exact Hf. }
    pose proof (proj1 Hinv t due Hin) as Hdead.
    eapply (graceInv_step deadline base _ s s' Hinv); [| | exact L' | |].
    + intros t' due' Hin'. left. rewrite Ht in Hin'.
      apply in_removeTimeout in Hin'. apply Hin'.
    + rewrite Hn. lia.
    + intros stamp eff Hin' _. unfold at_now in Hin'.
      apply in_map_iff in Hin' as [eff' [Heq _]]. injection Heq as <- _. lia.
    + right. split; [exact Hc|].
      destruct (connectionRef (app s)), (keepAliveIntervalRef (app s));
        simpl; split; auto; discriminate.
Qed.

Lemma run_graceInv (deadline : N) (base : list (N * Effect))
    (evs : list Event) (s s' : State) :
  forallb quiet evs = true ->
  run evs s = Some s' ->
  graceInv deadline base s -> graceInv deadline base s'.
Proof.
  revert s. induction evs as [|e evs IH]; intros s; cbn [run forallb].
  - intros _ E. injection E as <-. auto.
  - intros Hq. apply andb_prop in Hq as [Hq Hqs].
    destruct (step e s) as [s1|] eqn:Hstep; [|discriminate].
    intros Hrun Hinv.
    exact (IH s1 Hqs Hrun (step_graceInv deadline base e s s1 Hq Hstep Hinv)).
Qed.

(** Idle events leave the timer and the connection handle alone. *)
Lemma step_idle (e : Event) (s s' : State) :
  idle e = true ->
  step e s = Some s' ->
  timeouts (host s') = timeouts (host s) /\
  closeTimeoutRef (app s') = closeTimeoutRef (app s) /\
  connectionRef (app s') = connectionRef (app s).
Proof.
  assert (Hcore : core s' = core s ->
            timeouts (host s') = timeouts (host s) /\
            closeTimeoutRef (app s') = closeTimeoutRef (app s) /\
            connectionRef (app s') = connectionRef (app s)).
  { intros C. unfold core in C. injection C as _ Ht Hc Hr _. auto. }
  intros Hi H. by_event e H; try discriminate Hi; try (apply Hcore, H).
  - destruct H as [_ -> | c _ _ _ -> | _ _ ->]; auto.
  - destruct H as [C _]. unfold core in C. injection C as _ Ht Hc Hr _. auto.
Qed.

Lemma run_idle (evs : list Event) (s s' : State) :
  forallb idle evs = true ->
  run evs s = Some s' ->
  timeouts (host s') = timeouts (host s) /\
  closeTimeoutRef (app s') = closeTimeoutRef (app s) /\
  connectionRef (app s') = connectionRef (app s).
Proof.
  revert s. induction evs as [|e evs IH]; intros s; cbn [run forallb].
  - intros _ E. injection E as <-. auto.
  - intros Hi. apply andb_prop in Hi as [Hi His].
    destruct (step e s) as [s1|] eqn:Hstep; [|discriminate].
    intros Hrun.
    destruct (step_idle e s s1 Hi Hstep) as [Ht [Hc Hr]].
    destruct (IH s1 His Hrun) as [Ht' [Hc' Hr']].
    repeat split; congruence.
Qed.

Lemma dueTime_single (t : TimerId) (due : N) (s : State) :
  timeouts (host s) = [(t, due)] -> dueTime t s = Some due.
Proof. intros E. unfold dueTime. rewrite E. simpl. rewrite Nat.eqb_refl. reflexivity. Qed.

(** C8: once [stopTalking] has been called in a state the component can
    reach and in which it holds a connection, and as long as no
    [startTalking] call and no teardown follows: one timeout is pending, due
    60 s later; no [finish] call is made before that time, and at most one
    is made at all; the timer cannot fire earlier; and when it fires with
    the connection still held, exactly one [finish] call is made on it,
    the status becomes offline and the heartbeat interval is cleared. *)
Theorem C8_grace_period
    (key : option string) (before : list Event) (s : State) (c : ConnId) :
  run before (initial key) = Some s ->
  connectionRef (app s) = Some c ->
  gracePeriod s c.
Proof.
  intros Hreach Hconn. unfold gracePeriod.
  pose proof (run_timers_ok before _ s Hreach (initial_timers_ok key)) as Hok.
  destruct (step MouseUp s) as [s1|] eqn:Hup; [|discriminate Hup].
  destruct (step_log MouseUp s s1 Hup) as [new1 [L1 F1]].
  pose proof (step_MouseUp s s1 Hup) as [t [new0 [C _]]].
  unfold core in C. injection C as Hn1 Ht1 Hc1 Hr1 _.
  rewrite (cleared_when_ok s Hok) in Ht1. simpl in Ht1.
  exists t, s1. split; [reflexivity|]. split; [exact Hc1|]. split; [exact Ht1|].
  assert (Hno1 : Forall (fun entry => isFinish (snd entry) = false) new1).
  { eapply Forall_impl; [|exact F1]. intros entry. apply entry_ok_no_finish. exact I. }
  assert (Hinv1 : graceInv (now (host s) + 60000) (log (host s)) s1).
  { split; [|split].
    - intros t' due Hin. rewrite Ht1 in Hin. destruct Hin as [Hin|[]].
      injection Hin as _ <-. lia.
    - rewrite Hn1. lia.
    - exists new1. split; [exact L1|]. split; [|split].
      + intros stamp eff Hin Hfin. rewrite Forall_forall in Hno1.
        specialize (Hno1 _ Hin). simpl in Hno1. congruence.
      + rewrite (countFinish_none _ Hno1). lia.
      + rewrite (countFinish_none _ Hno1). discriminate. }
  split; [|split].
  - intros evs s2 Hq Hrun.
    destruct (run_graceInv _ _ evs s1 s2 Hq Hrun Hinv1) as [_ [_ [new [L [Hs [Hc _]]]]]].
    exists new. auto.
  - intros evs s2 Hi Hrun Hearly.
    destruct (run_idle evs s1 s2 Hi Hrun) as [Ht2 _].
    unfold step. rewrite (dueTime_single t (now (host s) + 60000) s2) by congruence.
    replace (now (host s) + 60000 <=? now (host s2))%N with false; [reflexivity|].
    symmetry. apply N.leb_gt. exact Hearly.
  - intros evs s2 Hi Hrun Hlate.
    destruct (run_idle evs s1 s2 Hi Hrun) as [Ht2 [_ Hr2]].
    assert (Hdue : dueTime t s2 = Some (now (host s) + 60000)%N).
    { apply dueTime_single. congruence. }
    destruct (step (GraceExpires t) s2) as [s3|] eqn:Hfire.
    + pose proof (step_GraceExpires t s2 s3 Hfire) as [_ [C [L [Hst [Hka Hint]]]]].
      unfold core in C. injection C as _ Ht3 _ Hr3 _.
      exists s3. split; [reflexivity|].
      rewrite Hr2, Hr1, Hconn in L. simpl in L.
      repeat (split; [assumption|]).
      rewrite Ht3, Ht2, Ht1. simpl. rewrite Nat.eqb_refl. reflexivity.
    + unfold step in Hfire. rewrite Hdue in Hfire.
      apply N.leb_le in Hlate. rewrite Hlate in Hfire. discriminate Hfire.
Qed.

Lemma C8_grace_period_witness :
  exists s,
    run pressAndOpen (initial micKey) = Some s /\
    connectionRef (app s) = Some 2 /\
    gracePeriod s 2.
Proof.
  eexists. split; [vm_compute; reflexivity|].
  split; [vm_compute; reflexivity|].
  apply (C8_grace_period micKey pressAndOpen _ 2); vm_compute; reflexivity.
Defined.

(** * Cells a callback leaves alone

    [p] is a view of the state.  Each hypothesis says that one kind of
    assignment does not show in [p]; each lemma then says that a callback
    does not show in [p], from the hypotheses for the assignments it makes. *)

Section Keeps.

Context {A : Type} (p : State -> A).

Hypothesis H_setTranscription : forall f s, p (setTranscription f s) = p s.
Hypothesis H_setInterimTranscript : forall v s, p (setInterimTranscript v s) = p s.
Hypothesis H_setConnectionStatus : forall v s, p (setConnectionStatus v s) = p s.
Hypothesis H_setError : forall v s, p (setError v s) = p s.
Hypothesis H_connectionRef_set : forall v s, p (connectionRef_set v s) = p s.
Hypothesis H_audioBufferRef_set : forall v s, p (audioBufferRef_set v s) = p s.
Hypothesis H_closeTimeoutRef_set : forall v s, p (closeTimeoutRef_set v s) = p s.
Hypothesis H_keepAliveIntervalRef_set : forall v s, p (keepAliveIntervalRef_set v s) = p s.
Hypothesis H_setStream : forall v s, p (setStream v s) = p s.
Hypothesis H_setRecorder : forall v s, p (setRecorder v s) = p s.
Hypothesis H_setIsRecording : forall v s, p (setIsRecording v s) = p s.
Hypothesis H_mediaStreamRef_set : forall v s, p (mediaStreamRef_set v s) = p s.
Hypothesis H_now_set : forall v s, p (now_set v s) = p s.
Hypothesis H_timeouts_set : forall v s, p (timeouts_set v s) = p s.
Hypothesis H_intervals_set : forall v s, p (intervals_set v s) = p s.
Hypothesis H_readyState_set : forall c v s, p (readyState_set c v s) = p s.
Hypothesis H_recorders_set : forall r v s, p (recorders_set r v s) = p s.
Hypothesis H_awaitingMic_set : forall v s, p (awaitingMic_set v s) = p s.
Hypothesis H_awaitingOpen_set : forall v s, p (awaitingOpen_set v s) = p s.
Hypothesis H_nextId_set : forall v s, p (nextId_set v s) = p s.
Hypothesis H_log_set : forall v s, p (log_set v s) = p s.

Ltac keep_assignments :=
  cbv beta iota zeta delta [fst snd];
  repeat progress rewrite ?H_setTranscription, ?H_setInterimTranscript, ?H_setConnectionStatus,
    ?H_setError, ?H_connectionRef_set, ?H_audioBufferRef_set, ?H_closeTimeoutRef_set,
    ?H_keepAliveIntervalRef_set, ?H_setStream, ?H_setRecorder, ?H_setIsRecording,
    ?H_mediaStreamRef_set, ?H_now_set, ?H_timeouts_set, ?H_intervals_set,
    ?H_readyState_set, ?H_recorders_set, ?H_awaitingMic_set, ?H_awaitingOpen_set,
    ?H_nextId_set, ?H_log_set.

Ltac keep :=
  unfold setTimeout, clearTimeout, setInterval, clearInterval,
    createTranscriptionConnection, listen_live, fresh, emit;
  repeat (keep_assignments;
          match goal with
          | |- context [match ?c with _ => _ end] =>
              lazymatch c with
              | context [match _ with _ => _ end] => fail
              | _ => destruct c eqn:?
              end
          end);
  keep_assignments; try reflexivity.

Lemma keeps_emit e s : p (emit e s) = p s.
Proof. keep. Qed.

Lemma keeps_stopKeepAlive s : p (stopKeepAlive s) = p s.
Proof. unfold stopKeepAlive. keep. Qed.

Lemma keeps_startKeepAlive s : p (startKeepAlive s) = p s.
Proof. unfold startKeepAlive. keep. apply keeps_stopKeepAlive. Qed.

Lemma keeps_heartbeat s : p (heartbeat s) = p s.
Proof. unfold heartbeat. keep. Qed.

Lemma keeps_closeConnection s : p (closeConnection s) = p s.
Proof.
  unfold closeConnection. cbv zeta. rewrite keeps_stopKeepAlive. keep.
Qed.

Lemma keeps_stopMicrophone s : p (stopMicrophone s) = p s.
Proof. unfold stopMicrophone, recorderStop. keep. Qed.

Lemma keeps_handleResults data s : p (handleResults data s) = p s.
Proof. unfold handleResults. keep. Qed.

Lemma keeps_clearTranscription s : p (clearTranscription s) = p s.
Proof. unfold clearTranscription. keep. Qed.

Lemma keeps_onOpen s : p (onOpen s) = p s.
Proof. unfold onOpen. rewrite keeps_startKeepAlive. keep. Qed.

Lemma keeps_onError s : p (onError s) = p s.
Proof. unfold onError. keep. Qed.

Lemma keeps_onClose s : p (onClose s) = p s.
Proof. unfold onClose. rewrite keeps_stopKeepAlive. keep. Qed.

Lemma keeps_onDataAvailable data s : p (onDataAvailable data s) = p s.
Proof.
  destruct (onDataAvailable_handled data s) as [_ -> | c _ _ _ -> | _ _ ->]; keep.
Qed.

Lemma keeps_handleStart_begin s : p (handleStart_begin s) = p s.
Proof. unfold handleStart_begin, startMicrophone_request. keep. Qed.

Lemma keeps_handleStart_record r s : p (handleStart_record r s) = p s.
Proof. unfold handleStart_record. keep. Qed.

Lemma keeps_handleStart_catch message s : p (handleStart_catch message s) = p s.
Proof. unfold handleStart_catch. keep. Qed.

Lemma keeps_startMicrophone_granted userStream sup s :
  p (snd (startMicrophone_granted userStream sup s)) = p s.
Proof. unfold startMicrophone_granted. keep. Qed.

Lemma keeps_initConnection seen s : p (snd (initConnection seen s)) = p s.
Proof. unfold initConnection. keep. Qed.

Lemma keeps_handleStart_connect seen r s : p (handleStart_connect seen r s) = p s.
Proof.
  unfold handleStart_connect.
  destruct (connectionReady s); [apply keeps_handleStart_record|].
  pose proof (keeps_initConnection seen s) as H.
  destruct (initConnection seen s) as [[c|message|c] s1]; simpl in H.
  - rewrite keeps_handleStart_record. exact H.
  - rewrite keeps_handleStart_catch. exact H.
  - rewrite H_awaitingOpen_set. exact H.
Qed.

Lemma keeps_handleStop s : p (handleStop s) = p s.
Proof.
  unfold handleStop. keep; rewrite keeps_stopMicrophone; reflexivity.
Qed.

Lemma keeps_teardown s : p (teardown s) = p s.
Proof.
  unfold teardown. keep; rewrite ?keeps_stopKeepAlive; keep.
Qed.

Lemma keeps_resolveOpen c s : p (resolveOpen c s) = p s.
Proof. unfold resolveOpen. keep. rewrite keeps_handleStart_record. keep. Qed.

Lemma keeps_rejectOpen c message s : p (rejectOpen c message s) = p s.
Proof. unfold rejectOpen. keep. rewrite keeps_handleStart_catch. keep. Qed.

(** The same, event by event. *)

Lemma keeps_MouseDown s s' : step MouseDown s = Some s' -> p s' = p s.
Proof.
  unfold step. intros E. injection E as <-.
  rewrite H_awaitingMic_set. apply keeps_handleStart_begin.
Qed.

Lemma keeps_MicGranted i userStream sup s s' :
  step (MicGranted i userStream sup) s = Some s' -> p s' = p s.
Proof.
  unfold step. destruct (nth_error (awaitingMic (host s)) i) as [seen|]; [|discriminate].
  cbv zeta.
  pose proof (keeps_startMicrophone_granted userStream sup
                (awaitingMic_set (removeNth i (awaitingMic (host s))) s)) as H.
  destruct (startMicrophone_granted userStream sup
              (awaitingMic_set (removeNth i (awaitingMic (host s))) s)) as [r s1].
  simpl in H. intros E. injection E as <-.
  rewrite keeps_handleStart_connect, H. apply H_awaitingMic_set.
Qed.

Lemma keeps_MicDenied i message s s' :
  step (MicDenied i message) s = Some s' -> p s' = p s.
Proof.
  unfold step. destruct (nth_error (awaitingMic (host s)) i); [|discriminate].
  intros E. injection E as <-.
  rewrite keeps_handleStart_catch. apply H_awaitingMic_set.
Qed.

Lemma keeps_SocketState c rs s s' :
  step (SocketState c rs) s = Some s' -> p s' = p s.
Proof.
  unfold step. destruct (connected c s); [|discriminate].
  intros E. injection E as <-. apply H_readyState_set.
Qed.

Lemma keeps_ConnOpen c s s' : step (ConnOpen c) s = Some s' -> p s' = p s.
Proof.
  unfold step. destruct (connected c s); [|discriminate].
  intros E. injection E as <-. rewrite keeps_resolveOpen. apply keeps_onOpen.
Qed.

Lemma keeps_ConnResults c data s s' :
  step (ConnResults c data) s = Some s' -> p s' = p s.
Proof.
  unfold step. destruct (connected c s); [|discriminate].
  intros E. injection E as <-. apply keeps_handleResults.
Qed.

Lemma keeps_ConnError c message s s' :
  step (ConnError c message) s = Some s' -> p s' = p s.
Proof.
  unfold step. destruct (connected c s); [|discriminate].
  intros E. injection E as <-. rewrite keeps_rejectOpen. apply keeps_onError.
Qed.

Lemma keeps_ConnClose c s s' : step (ConnClose c) s = Some s' -> p s' = p s.
Proof.
  unfold step. destruct (connected c s); [|discriminate].
  intros E. injection E as <-. apply keeps_onClose.
Qed.

Lemma keeps_DataAvailable r data s s' :
  step (DataAvailable r data) s = Some s' -> p s' = p s.
Proof.
  unfold step. destruct (recorders (host s) r) as [info|]; [|discriminate].
  destruct (ondataavailable info); [|discriminate].
  intros E. injection E as <-. apply keeps_onDataAvailable.
Qed.

Lemma keeps_HeartbeatFires t s s' :
  step (HeartbeatFires t) s = Some s' -> p s' = p s.
Proof.
  unfold step. destruct (existsb (Nat.eqb t) (intervals (host s))); [|discriminate].
  intros E. injection E as <-. apply keeps_heartbeat.
Qed.

Lemma keeps_MouseUp s s' : step MouseUp s = Some s' -> p s' = p s.
Proof. unfold step. intros E. injection E as <-. apply keeps_handleStop. Qed.

Lemma keeps_Elapse ms s s' : step (Elapse ms) s = Some s' -> p s' = p s.
Proof. unfold step. intros E. injection E as <-. apply H_now_set. Qed.

Lemma keeps_GraceExpires t s s' :
  step (GraceExpires t) s = Some s' -> p s' = p s.
Proof.
  unfold step. destruct (dueTime t s) as [due|]; [|discriminate].
  destruct (due <=? now (host s))%N; [|discriminate].
  intros E. injection E as <-. rewrite keeps_closeConnection. apply H_timeouts_set.
Qed.

Lemma keeps_ClearClicked s s' : step ClearClicked s = Some s' -> p s' = p s.
Proof. unfold step. intros E. injection E as <-. apply keeps_clearTranscription. Qed.

Lemma keeps_Unmount s s' : step Unmount s = Some s' -> p s' = p s.
Proof. unfold step. intros E. injection E as <-. apply keeps_teardown. Qed.

End Keeps.

(** Show that [p s' = p s] from [H : step e s = Some s'], for the events
    whose assignments do not show in [p]. *)
Ltac frame_step p H :=
  let close L := (eapply (L _ p); [ intros; reflexivity .. | exact H ]) in
  first
    [ close @keeps_MouseDown | close @keeps_MicGranted | close @keeps_MicDenied
    | close @keeps_SocketState | close @keeps_ConnOpen | close @keeps_ConnResults
    | close @keeps_ConnError | close @keeps_ConnClose | close @keeps_DataAvailable
    | close @keeps_HeartbeatFires | close @keeps_MouseUp | close @keeps_Elapse
    | close @keeps_GraceExpires | close @keeps_ClearClicked | close @keeps_Unmount ].

Lemma step_keeps_key (e : Event) (s s' : State) :
  step e s = Some s' -> DEEPGRAM_API_KEY (host s') = DEEPGRAM_API_KEY (host s).
Proof.
  intros H. destruct e; frame_step (fun s => DEEPGRAM_API_KEY (host s)) H.
Qed.

(** * Choice of the recording format *)

Lemma firstSupported_none (sup : string -> bool) (l : list string) :
  (forall type, In type l -> sup type = false) -> firstSupported sup l = "".
Proof.
  induction l as [|type l IH]; intros H; simpl; [reflexivity|].
  rewrite (H type (or_introl eq_refl)). apply IH. intros t Ht. apply H. right. exact Ht.
Qed.

Lemma firstSupported_some (sup : string -> bool) (l : list string) :
  (exists type, In type l /\ sup type = true) ->
  exists before after,
    l = before ++ firstSupported sup l :: after /\
    sup (firstSupported sup l) = true /\
    forall type, In type before -> sup type = false.
Proof.
  induction l as [|type l IH]; intros [t [Hin Ht]]; [destruct Hin|].
  simpl. destruct (sup type) eqn:E.
  - exists [], l. repeat split; auto. intros ? [].
  - destruct Hin as [-> | Hin]; [congruence|].
    destruct (IH (ex_intro _ t (conj Hin Ht))) as [before [after [Hl [Hs Hb]]]].
    exists (type :: before), after. repeat split.
    + simpl. rewrite <- Hl. reflexivity.
    + exact Hs.
    + intros t' [<- | Ht']; [exact E | apply Hb, Ht'].
Qed.

(** X1: the recorder is built with the first entry of the preference list
    that the browser supports: every entry before the chosen one is
    unsupported; when no entry is supported the type passed is the empty
    string, and the recorder is built all the same. *)
Theorem X1_recording_format_preference
    (userStream : StreamId) (isTypeSupported : string -> bool) (s : State) :
  let chosen := firstSupported isTypeSupported mimeTypes in
  effects (snd (startMicrophone_granted userStream isTypeSupported s)) =
    effects s ++ [NewMediaRecorder (nextId (host s)) userStream chosen] /\
  ((forall type, In type mimeTypes -> isTypeSupported type = false) -> chosen = "") /\
  ((exists type, In type mimeTypes /\ isTypeSupported type = true) ->
   exists before after,
     mimeTypes = before ++ chosen :: after /\
     isTypeSupported chosen = true /\
     forall type, In type before -> isTypeSupported type = false).
Proof.
  intros chosen. split; [|split].
  - unfold startMicrophone_granted, fresh. simpl. unfold effects. simpl.
    rewrite map_app. reflexivity.
  - apply firstSupported_none.
  - apply firstSupported_some.
Qed.

(** * No chunk is lost between two [startTalking] calls *)

Lemma sentChunks_app (l1 l2 : list (N * Effect)) :
  sentChunks (l1 ++ l2) = sentChunks l1 ++ sentChunks l2.
Proof. apply flat_map_app. Qed.

Lemma sentChunks_stamped (s : State) (c : ConnId) (chunks : list Blob) :
  sentChunks (stamped s c chunks) = chunks.
Proof. induction chunks as [|x l IH]; simpl; [reflexivity | f_equal; exact IH]. Qed.

Lemma sentChunks_none (P : Effect -> Prop) (t : N) (l : list (N * Effect)) :
  (forall c chunk, ~ P (Send c chunk)) ->
  Forall (fun entry => fst entry = t /\ P (snd entry)) l ->
  sentChunks l = [].
Proof.
  intros HP. induction 1 as [|[stamp eff] l [_ H] _ IH]; simpl; [reflexivity|].
  destruct eff; simpl in *; try exact IH. elim (HP _ _ H).
Qed.

Lemma sentChunks_at_now (s : State) (effs : list Effect) :
  Forall (fun eff => isSend eff = false) effs -> sentChunks (at_now s effs) = [].
Proof.
  induction 1 as [|eff l H _ IH]; simpl; [reflexivity|].
  destruct eff; simpl in *; try exact IH. discriminate H.
Qed.

Lemma logged_sentChunks (P : Effect -> Prop) (s s' : State) :
  (forall c chunk, ~ P (Send c chunk)) ->
  logged P s s' ->
  exists new, log (host s') = log (host s) ++ new /\ sentChunks new = [].
Proof.
  intros HP [_ [new [L F]]]. exists new. split; [exact L|].
  exact (sentChunks_none P _ new HP F).
Qed.

Lemma captured_silent (e : Event) :
  match e with DataAvailable _ _ => False | _ => True end -> captured [e] = [].
Proof. destruct e; simpl; intros H; auto; contradiction. Qed.

Lemma step_conserves (e : Event) (s s' : State) :
  noRestart e = true ->
  step e s = Some s' ->
  exists new,
    log (host s') = log (host s) ++ new /\
    sentChunks new ++ audioBufferRef (app s') =
      audioBufferRef (app s) ++ audible (captured [e]).
Proof.
  intros Hno H.
  assert (Hq : quietly s s' -> captured [e] = [] ->
          exists new,
            log (host s') = log (host s) ++ new /\
            sentChunks new ++ audioBufferRef (app s') =
              audioBufferRef (app s) ++ audible (captured [e])).
  { intros [C L] ->. unfold core in C. injection C as _ _ _ _ Hb.
    destruct (logged_sentChunks harmless s s' (fun _ _ F => F) L) as [new [Hl Hs]].
    exists new. split; [exact Hl|]. rewrite Hs, Hb, app_nil_r. reflexivity. }
  by_event e H; try discriminate Hno; try (apply Hq; [exact H | reflexivity]).
  - (* MicGranted *)
    destruct H as [_ [_ [Hb L]]].
    destruct (logged_sentChunks opening s s' (fun _ _ F => F) L) as [new [Hl Hs]].
    exists new. split; [exact Hl|]. rewrite Hs, Hb, app_nil_r. reflexivity.
  - (* DataAvailable *)
    simpl. destruct H as [Hz -> | c Hpos _ _ -> | Hpos _ ->].
    + exists []. rewrite Hz. simpl. rewrite !app_nil_r. auto.
    + apply N.ltb_lt in Hpos. rewrite Hpos. eexists. split; [reflexivity|].
      simpl. rewrite sentChunks_stamped, app_nil_r. reflexivity.
    + apply N.ltb_lt in Hpos. rewrite Hpos. exists []. simpl.
      rewrite app_nil_r. auto.
  - (* MouseUp *)
    destruct H as [t [new [C [L F]]]]. unfold core in C. injection C as _ _ _ _ Hb.
    eexists. split; [exact L|].
    rewrite sentChunks_app, (sentChunks_none harmless _ new (fun _ _ F => F) F).
    rewrite sentChunks_at_now, Hb; [simpl; rewrite app_nil_r; reflexivity|].
    destruct (closeTimeoutRef (app s)); simpl; repeat constructor.
  - (* Elapse *)
    destruct H as [C L]. unfold core in C. injection C as _ _ _ _ Hb.
    exists []. rewrite app_nil_r. split; [exact L|]. simpl.
    rewrite Hb, app_nil_r. reflexivity.
  - (* GraceExpires *)
    destruct H as [_ [C [L _]]]. unfold core in C. injection C as _ _ _ _ Hb.
    eexists. split; [exact L|]. rewrite sentChunks_at_now, Hb; [simpl; rewrite app_nil_r; reflexivity|].
    destruct (connectionRef (app s)), (keepAliveIntervalRef (app s));
      simpl; repeat constructor.
  - (* Unmount *)
    destruct H as [C L]. unfold core in C. injection C as _ _ _ _ Hb.
    eexists. split; [exact L|]. rewrite sentChunks_at_now, Hb; [simpl; rewrite app_nil_r; reflexivity|].
    destruct (closeTimeoutRef (app s)), (keepAliveIntervalRef (app s)),
      (connectionRef (app s)); simpl; repeat constructor.
Qed.

Lemma audible_app (l1 l2 : list Blob) : audible (l1 ++ l2) = audible l1 ++ audible l2.
Proof. apply filter_app. Qed.

(** X2: between two [startTalking] calls no chunk that carries data is
    lost, duplicated or reordered, whatever the sockets, the timers and the
    user do in between: the chunks sent, followed by the chunks still in
    the buffer, are the chunks that were in the buffer at the start
    followed by the chunks with data handed over since, in that order. *)
Theorem X2_chunks_conserved (evs : list Event) (s s' : State) :
  forallb noRestart evs = true ->
  run evs s = Some s' ->
  exists new,
    log (host s') = log (host s) ++ new /\
    sentChunks new ++ audioBufferRef (app s') =
      audioBufferRef (app s) ++ audible (captured evs).
Proof.
  revert s. induction evs as [|e evs IH]; intros s; cbn [run forallb].
  - intros _ E. injection E as <-. exists []. simpl. rewrite !app_nil_r. auto.
  - intros Hno. apply andb_prop in Hno as [Hno Hnos].
    destruct (step e s) as [s1|] eqn:Hstep; [|discriminate].
    intros Hrun.
    destruct (step_conserves e s s1 Hno Hstep) as [new1 [L1 E1]].
    destruct (IH s1 Hnos Hrun) as [new2 [L2 E2]].
    exists (new1 ++ new2). split.
    + rewrite L2, L1, app_assoc. reflexivity.
    + rewrite captured_cons, audible_app, sentChunks_app, <- app_assoc, E2.
      rewrite !app_assoc. f_equal. exact E1.
Qed.

Lemma X2_chunks_conserved_witness :
  exists s s',
    run pressAndOpen (initial micKey) = Some s /\
    let evs := [DataAvailable 1 (chunk 1); SocketState 2 3; DataAvailable 1 (chunk 2);
                ConnClose 2; DataAvailable 1 (mkBlob 0 7); SocketState 2 1;
                DataAvailable 1 (chunk 3); MouseUp] in
    run evs s = Some s' /\
    exists new,
      log (host s') = log (host s) ++ new /\
      sentChunks new ++ audioBufferRef (app s') =
        audioBufferRef (app s) ++ audible (captured evs).
Proof.
  eexists. eexists. split; [vm_compute; reflexivity|].
  split; [vm_compute; reflexivity|].
  apply X2_chunks_conserved; vm_compute; reflexivity.
Defined.

(** * Timers do not pile up *)

Lemma length_removeTimeout (t : TimerId) (l : list (TimerId * N)) :
  List.length (removeTimeout t l) <= List.length l.
Proof. apply filter_length_le. Qed.

Lemma step_one_timeout (e : Event) (s s' : State) :
  step e s = Some s' ->
  timers_ok s -> List.length (timeouts (host s)) <= 1 ->
  List.length (timeouts (host s')) <= 1.
Proof.
  assert (Hq : quietly s s' -> List.length (timeouts (host s)) <= 1 ->
               List.length (timeouts (host s')) <= 1).
  { intros [C _]. unfold core in C. injection C as _ -> _ _ _. auto. }
  intros H Hok Hlen. by_event e H; try (apply Hq; assumption).
  - destruct H as [C _]. unfold core in C. injection C as _ -> _ _ _.
    rewrite (cleared_when_ok s Hok). simpl. lia.
  - destruct H as [-> _]. exact Hlen.
  - destruct H as [_ -> | c _ _ _ -> | _ _ ->]; exact Hlen.
  - destruct H as [t [new [C _]]]. unfold core in C. injection C as _ -> _ _ _.
    rewrite (cleared_when_ok s Hok). simpl. lia.
  - destruct H as [C _]. unfold core in C. injection C as _ -> _ _ _. exact Hlen.
  - destruct H as [_ [C _]]. unfold core in C. injection C as _ -> _ _ _.
    pose proof (length_removeTimeout t (timeouts (host s))). lia.
  - destruct H as [C _]. unfold core in C. injection C as _ -> _ _ _.
    rewrite (cleared_when_ok s Hok). simpl. lia.
Qed.

(** X3: in every state the component can reach, at most one grace-period
    timeout is pending, and it is the one whose handle [closeTimeoutRef]
    holds: starting the timer anew cancels the previous one. *)
Theorem X3_at_most_one_grace_timer
    (key : option string) (evs : list Event) (s : State) :
  run evs (initial key) = Some s ->
  List.length (timeouts (host s)) <= 1 /\
  forall t due, In (t, due) (timeouts (host s)) -> closeTimeoutRef (app s) = Some t.
Proof.
  assert (G : forall evs s0 s1,
            run evs s0 = Some s1 ->
            timers_ok s0 /\ List.length (timeouts (host s0)) <= 1 ->
            timers_ok s1 /\ List.length (timeouts (host s1)) <= 1).
  { clear. induction evs as [|e evs IH]; intros s0 s1; cbn [run].
    - intros E. injection E as <-. auto.
    - destruct (step e s0) as [s2|] eqn:Hstep; [|discriminate].
      intros Hrun [Hok Hlen]. apply (IH s2 s1 Hrun). split.
      + exact (step_timers_ok e s0 s2 Hstep Hok).
      + exact (step_one_timeout e s0 s2 Hstep Hok Hlen). }
  intros Hrun. destruct (G evs (initial key) s Hrun) as [Hok Hlen].
  - split; [apply initial_timers_ok | simpl; lia].
  - split; [exact Hlen | exact Hok].
Qed.

Lemma X3_at_most_one_grace_timer_witness :
  exists s,
    run (pressAndOpen ++ [MouseUp; Elapse 100; MouseUp; MouseDown; MouseUp])
        (initial micKey) = Some s /\
    List.length (timeouts (host s)) <= 1 /\
    forall t due, In (t, due) (timeouts (host s)) -> closeTimeoutRef (app s) = Some t.
Proof.
  eexists. split; [vm_compute; reflexivity|].
  apply (X3_at_most_one_grace_timer micKey
           (pressAndOpen ++ [MouseUp; Elapse 100; MouseUp; MouseDown; MouseUp])).
  vm_compute. reflexivity.
Defined.

(** ** The heartbeat *)

Lemma removeInterval_when_ok (s : State) (t : TimerId) :
  beats_ok s -> keepAliveIntervalRef (app s) = Some t ->
  removeInterval t (intervals (host s)) = [].
Proof.
  intros Hok Hk.
  destruct (removeInterval t (intervals (host s))) as [|t' l] eqn:E; [reflexivity|].
  assert (Hin : In t' (removeInterval t (intervals (host s)))) by (rewrite E; left; reflexivity).
  unfold removeInterval in Hin. apply filter_In in Hin as [Hin Hne].
  apply negb_true_iff, Nat.eqb_neq in Hne.
  pose proof (Hok t' Hin) as Hk'. congruence.
Qed.

Lemma stopKeepAlive_beats (s : State) :
  beats_ok s ->
  intervals (host (stopKeepAlive s)) = [] /\
  keepAliveIntervalRef (app (stopKeepAlive s)) = None.
Proof.
  intros Hok. unfold stopKeepAlive.
  destruct (keepAliveIntervalRef (app s)) as [t|] eqn:Hk.
  - simpl. split; [apply removeInterval_when_ok; assumption | reflexivity].
  - split; [|exact Hk].
    destruct (intervals (host s)) as [|t l] eqn:E; [reflexivity|].
    pose proof (Hok t) as H. rewrite E in H. specialize (H (or_introl eq_refl)).
    congruence.
Qed.

Lemma step_beats (e : Event) (s s' : State) :
  step e s = Some s' ->
  beats_ok s ->
  beat s' = beat s \/
  (intervals (host s') = [] /\ keepAliveIntervalRef (app s') = None /\
   match e with ConnClose _ | GraceExpires _ | Unmount => True | _ => False end) \/
  (exists t, intervals (host s') = [t] /\ keepAliveIntervalRef (app s') = Some t /\
   exists c, e = ConnOpen c).
Proof.
  intros H Hok.
  destruct e; try (left; frame_step beat H).
  - (* ConnOpen *)
    right. right. unfold step in H. destruct (connected c s); [|discriminate].
    injection H as <-.
    assert (Hb : beat (resolveOpen c (onOpen s)) = beat (onOpen s)).
    { apply keeps_resolveOpen; intros; reflexivity. }
    unfold beat in Hb. injection Hb as -> ->.
    unfold onOpen, startKeepAlive, setInterval, fresh. cbv zeta.
    destruct (stopKeepAlive_beats (setConnectionStatus online s) Hok) as [Hi Hk].
    eexists. simpl. rewrite Hi. simpl. eauto.
  - (* ConnClose *)
    right. left. unfold step in H. destruct (connected c s); [|discriminate].
    injection H as <-. unfold onClose.
    destruct (stopKeepAlive_beats (setConnectionStatus offline s) Hok) as [Hi Hk]. auto.
  - (* GraceExpires *)
    right. left. unfold step in H. destruct (dueTime t s); [|discriminate].
    destruct (_ <=? _)%N; [|discriminate]. injection H as <-.
    unfold closeConnection. cbv zeta.
    match goal with |- context [stopKeepAlive ?x] =>
      destruct (stopKeepAlive_beats x) as [Hi Hk] end; auto.
    destruct (connectionRef (app (timeouts_set _ s))); exact Hok.
  - (* Unmount *)
    right. left. unfold step in H. injection H as <-. unfold teardown. cbv zeta.
    match goal with |- context [stopKeepAlive ?x] =>
      destruct (stopKeepAlive_beats x) as [Hi Hk] end.
    { destruct (closeTimeoutRef (app s)); exact Hok. }
    destruct (connectionRef (app (stopKeepAlive _))); simpl; auto.
Qed.

Lemma run_beats (evs : list Event) (s s' : State) :
  run evs s = Some s' ->
  beats_ok s /\ List.length (intervals (host s)) <= 1 ->
  beats_ok s' /\ List.length (intervals (host s')) <= 1.
Proof.
  revert s. induction evs as [|e evs IH]; intros s; cbn [run].
  - intros E. injection E as <-. auto.
  - destruct (step e s) as [s1|] eqn:Hstep; [|discriminate].
    intros Hrun [Hok Hlen]. apply (IH s1 Hrun).
    destruct (step_beats e s s1 Hstep Hok) as [E | [[Hi [Hk _]] | [t [Hi [Hk _]]]]].
    + unfold beat in E. injection E as Hi Hk. unfold beats_ok.
      rewrite Hi, Hk. auto.
    + unfold beats_ok. rewrite Hi. split; [intros t [] | simpl; lia].
    + unfold beats_ok. rewrite Hi, Hk. split; [|simpl; lia].
      intros t' [<- | []]. reflexivity.
Qed.

(** X4: in every state the component can reach, at most one heartbeat
    interval is running, and it is the one whose handle
    [keepAliveIntervalRef] holds; after a close event from the service, the
    expiry of the grace timer or the teardown, none is running. *)
Theorem X4_at_most_one_heartbeat
    (key : option string) (evs : list Event) (s : State) :
  run evs (initial key) = Some s ->
  List.length (intervals (host s)) <= 1 /\
  (forall t, In t (intervals (host s)) -> keepAliveIntervalRef (app s) = Some t) /\
  (forall e s',
     step e s = Some s' ->
     match e with ConnClose _ | GraceExpires _ | Unmount => True | _ => False end ->
     intervals (host s') = [] /\ keepAliveIntervalRef (app s') = None).
Proof.
  intros Hrun.
  destruct (run_beats evs (initial key) s Hrun) as [Hok Hlen].
  { split; [intros t [] | simpl; lia]. }
  split; [exact Hlen|]. split; [exact Hok|].
  intros e s' Hstep He.
  destruct (step_beats e s s' Hstep Hok) as [E | [[Hi [Hk _]] | [t [_ [_ [c ->]]]]]].
  - destruct e; try contradiction.
    + unfold step in Hstep. destruct (connected c s); [|discriminate].
      injection Hstep as <-. unfold onClose.
      apply stopKeepAlive_beats. exact Hok.
    + pose proof (step_GraceExpires t s s' Hstep) as [_ [_ [_ [_ [Hk _]]]]].
      unfold beat in E. injection E as Hi Hk'. split; [|exact Hk].
      rewrite Hk' in Hk. rewrite Hi.
      destruct (intervals (host s)) as [|t' l] eqn:El; [reflexivity|].
      pose proof (Hok t') as H. rewrite El in H. specialize (H (or_introl eq_refl)).
      congruence.
    + unfold step in Hstep. injection Hstep as <-. unfold teardown. cbv zeta.
      match goal with |- context [stopKeepAlive ?x] =>
        destruct (stopKeepAlive_beats x) as [Hi Hk] end.
      { destruct (closeTimeoutRef (app s)); exact Hok. }
      destruct (connectionRef (app (stopKeepAlive _))); simpl; auto.
  - auto.
  - contradiction.
Qed.

Lemma X4_at_most_one_heartbeat_witness :
  exists s,
    run (pressAndOpen ++ [MouseUp; MouseDown; MicGranted 0 8 webmOnly;
                          SocketState 2 3; ConnError 2 None; MouseDown;
                          MicGranted 0 9 webmOnly; SocketState 7 1; ConnOpen 7])
        (initial micKey) = Some s /\
    List.length (intervals (host s)) <= 1 /\
    (forall t, In t (intervals (host s)) -> keepAliveIntervalRef (app s) = Some t) /\
    (forall e s',
       step e s = Some s' ->
       match e with ConnClose _ | GraceExpires _ | Unmount => True | _ => False end ->
       intervals (host s') = [] /\ keepAliveIntervalRef (app s') = None).
Proof.
  eexists. split; [vm_compute; reflexivity|].
  apply (X4_at_most_one_heartbeat micKey
           (pressAndOpen ++ [MouseUp; MouseDown; MicGranted 0 8 webmOnly;
                             SocketState 2 3; ConnError 2 None; MouseDown;
                             MicGranted 0 9 webmOnly; SocketState 7 1; ConnOpen 7])).
  vm_compute. reflexivity.
Defined.

(** * Without an API key *)

Lemma getDeepgramClient_no_key (s : State) :
  keyMissing (DEEPGRAM_API_KEY (host s)) = true ->
  getDeepgramClient s = inr missingKeyMessage.
Proof.
  unfold getDeepgramClient, keyMissing.
  destruct (DEEPGRAM_API_KEY (host s)) as [k|]; [|reflexivity].
  destruct (Js.truthy k); [discriminate | reflexivity].
Qed.

Lemma handleStart_connect_no_key (seen : Status) (r : RecorderId) (s : State) :
  keyMissing (DEEPGRAM_API_KEY (host s)) = true ->
  connectionRef (app s) = None ->
  handleStart_connect seen r s =
  handleStart_catch (Some missingKeyMessage)
    (setError (Some missingKeyMessage)
       (setConnectionStatus error_
          (setError None (setConnectionStatus connecting s)))).
Proof.
  intros Hkey Hc. unfold handleStart_connect, connectionReady, initConnection.
  rewrite Hc. cbv zeta.
  rewrite (getDeepgramClient_no_key (setError None (setConnectionStatus connecting s)) Hkey).
  reflexivity.
Qed.

Lemma harmless_entries_app (l1 l2 : list (N * Effect)) :
  Forall (fun entry => harmless (snd entry)) l1 ->
  Forall (fun entry => harmless (snd entry)) l2 ->
  Forall (fun entry => harmless (snd entry)) (l1 ++ l2).
Proof. intros H1 H2. apply Forall_app. auto. Qed.

Lemma harmless_logged (s s' : State) :
  logged harmless s s' ->
  Forall (fun entry => harmless (snd entry)) (log (host s)) ->
  Forall (fun entry => harmless (snd entry)) (log (host s')).
Proof.
  intros [_ [new [L F]]] H. rewrite L. apply harmless_entries_app; [exact H|].
  eapply Forall_impl; [|exact F]. intros entry [_ Hh]. exact Hh.
Qed.

Lemma harmless_at_now (s : State) (effs : list Effect) :
  Forall harmless effs -> Forall (fun entry => harmless (snd entry)) (at_now s effs).
Proof. induction 1; simpl; constructor; auto. Qed.

Lemma step_unconnected (e : Event) (s s' : State) :
  keyMissing (DEEPGRAM_API_KEY (host s)) = true ->
  step e s = Some s' ->
  unconnected s -> unconnected s'.
Proof.
  intros Hkey H [Hrs [Hc [Hst Hlog]]].
  assert (Hdead : forall c, connected c s = false).
  { intros c. unfold connected. rewrite Hrs. reflexivity. }
  assert (Hframe : socketsAndStatus s' = socketsAndStatus s ->
                   core s' = core s \/ connectionRef (app s') = connectionRef (app s) ->
                   Forall (fun entry => harmless (snd entry)) (log (host s')) ->
                   unconnected s').
  { intros E C L. unfold socketsAndStatus in E. injection E as Er Es.
    assert (Hc' : connectionRef (app s') = None).
    { destruct C as [C|C]; [unfold core in C; injection C as _ _ _ C _|]; congruence. }
    split; [intros c; rewrite Er; apply Hrs|]. split; [exact Hc'|].
    split; [congruence | exact L]. }
  destruct e.
  - (* MouseDown *)
    apply Hframe; [frame_step socketsAndStatus H | |].
    + right. pose proof (step_MouseDown s s' H) as [C _].
      unfold core in C. injection C as _ _ _ C _. exact C.
    + pose proof (step_MouseDown s s' H) as [_ L]. rewrite L.
      apply harmless_entries_app; [exact Hlog|]. apply harmless_at_now.
      destruct (closeTimeoutRef (app s)); simpl; repeat constructor.
  - (* MicGranted *)
    unfold step in H.
    destruct (nth_error (awaitingMic (host s)) i) as [seen|]; [|discriminate].
    cbv zeta in H.
    pose proof (quietly_startMicrophone_granted userStream isTypeSupported
                  (awaitingMic_set (removeNth i (awaitingMic (host s))) s)) as Q.
    assert (Hk1 : DEEPGRAM_API_KEY (host (snd (startMicrophone_granted userStream
                    isTypeSupported
                    (awaitingMic_set (removeNth i (awaitingMic (host s))) s))))
                  = DEEPGRAM_API_KEY (host s)) by reflexivity.
    assert (Hr1 : readyState (host (snd (startMicrophone_granted userStream
                    isTypeSupported
                    (awaitingMic_set (removeNth i (awaitingMic (host s))) s))))
                  = readyState (host s)) by reflexivity.
    destruct (startMicrophone_granted userStream isTypeSupported
                (awaitingMic_set (removeNth i (awaitingMic (host s))) s)) as [r s1].
    simpl in Q, Hk1, Hr1. injection H as <-.
    destruct Q as [C L]. unfold core in C. injection C as _ _ _ Hc1 _.
    rewrite handleStart_connect_no_key by congruence.
    split; [intros c; simpl; rewrite Hr1; apply Hrs|].
    split; [simpl; congruence|]. split; [reflexivity|].
    apply (harmless_logged (awaitingMic_set (removeNth i (awaitingMic (host s))) s));
      [exact L | exact Hlog].
  - (* MicDenied *)
    pose proof (step_silent (MicDenied i message) s s' eq_refl H) as [C L].
    unfold step in H. destruct (nth_error (awaitingMic (host s)) i); [|discriminate].
    injection H as <-.
    split; [intros c; apply Hrs|]. split; [exact Hc|]. split; [reflexivity|].
    exact (harmless_logged s _ L Hlog).
  - unfold step in H. rewrite Hdead in H. discriminate.
  - unfold step in H. rewrite Hdead in H. discriminate.
  - unfold step in H. rewrite Hdead in H. discriminate.
  - unfold step in H. rewrite Hdead in H. discriminate.
  - unfold step in H. rewrite Hdead in H. discriminate.
  - (* DataAvailable *)
    apply Hframe; [frame_step socketsAndStatus H | |].
    + right. pose proof (step_DataAvailable r data s s' H) as Hh.
      destruct Hh as [_ -> | c _ _ _ -> | _ _ ->]; reflexivity.
    + pose proof (step_DataAvailable r data s s' H) as Hh.
      destruct Hh as [_ -> | c _ Hsome _ _ | _ _ ->]; try exact Hlog. congruence.
  - (* HeartbeatFires *)
    pose proof (step_silent (HeartbeatFires t) s s' eq_refl H) as [C L].
    apply Hframe; [frame_step socketsAndStatus H | left; exact C |].
    exact (harmless_logged s _ L Hlog).
  - (* MouseUp *)
    pose proof (step_MouseUp s s' H) as [t' [new [C [L F]]]].
    apply Hframe; [frame_step socketsAndStatus H | |].
    + right. unfold core in C. injection C as _ _ _ C _. exact C.
    + rewrite L. apply harmless_entries_app; [exact Hlog|].
      apply harmless_entries_app.
      * eapply Forall_impl; [|exact F]. intros entry [_ Hh]. exact Hh.
      * apply harmless_at_now.
        destruct (closeTimeoutRef (app s)); simpl; repeat constructor.
  - (* Elapse *)
    pose proof (step_Elapse ms s s' H) as [C L].
    apply Hframe; [frame_step socketsAndStatus H | |].
    + right. unfold core in C. injection C as _ _ _ C _. exact C.
    + rewrite L. exact Hlog.
  - (* GraceExpires *)
    pose proof (step_GraceExpires t s s' H) as [_ [C [L [Hst' _]]]].
    unfold core in C. injection C as _ _ _ Hc' _.
    split; [|split; [exact Hc' | split; [exact Hst'|]]].
    + intros c.
      assert (E : readyState (host s') = readyState (host s))
        by (frame_step (fun s => readyState (host s)) H).
      rewrite E. apply Hrs.
    + rewrite L, Hc. apply harmless_entries_app; [exact Hlog|]. apply harmless_at_now.
      destruct (keepAliveIntervalRef (app s)); simpl; repeat constructor.
  - (* ClearClicked *)
    pose proof (step_silent ClearClicked s s' eq_refl H) as [C L].
    apply Hframe; [frame_step socketsAndStatus H | left; exact C |].
    exact (harmless_logged s _ L Hlog).
  - (* Unmount *)
    pose proof (step_Unmount s s' H) as [C L].
    apply Hframe; [frame_step socketsAndStatus H | |].
    + right. unfold core in C. injection C as _ _ _ C _. exact C.
    + rewrite L, Hc. apply harmless_entries_app; [exact Hlog|]. apply harmless_at_now.
      destruct (closeTimeoutRef (app s)), (keepAliveIntervalRef (app s));
        simpl; repeat constructor.
Qed.

(** X5: when the API key is missing or empty, the component never reaches
    the service, whatever the user does: no connection is ever opened or
    held, no audio is sent, the status stays offline. *)
Theorem X5_no_key_no_service (key : option string) (evs : list Event) (s : State) :
  keyMissing key = true ->
  run evs (initial key) = Some s ->
  connectionRef (app s) = None /\
  connectionStatus (app s) = offline /\
  (forall stamp eff, In (stamp, eff) (log (host s)) ->
     match eff with
     | ListenLive _ _ _ | Send _ _ | Finish _ => False
     | _ => True
     end).
Proof.
  intros Hkey Hrun.
  assert (G : forall evs s0 s1,
            run evs s0 = Some s1 ->
            keyMissing (DEEPGRAM_API_KEY (host s0)) = true ->
            unconnected s0 -> unconnected s1).
  { clear. induction evs as [|e evs IH]; intros s0 s1; cbn [run].
    - intros E. injection E as <-. auto.
    - destruct (step e s0) as [s2|] eqn:Hstep; [|discriminate].
      intros Hrun Hkey Hun. apply (IH s2 s1 Hrun).
      + rewrite (step_keeps_key e s0 s2 Hstep). exact Hkey.
      + exact (step_unconnected e s0 s2 Hkey Hstep Hun). }
  destruct (G evs (initial key) s Hrun Hkey) as [_ [Hc [Hst Hlog]]].
  { split; [reflexivity|]. split; [reflexivity|]. split; [reflexivity | constructor]. }
  split; [exact Hc|]. split; [exact Hst|].
  intros stamp eff Hin. rewrite Forall_forall in Hlog. exact (Hlog _ Hin).
Qed.

Lemma X5_no_key_no_service_witness :
  exists s,
    run [MouseDown; MicGranted 0 7 webmOnly; MouseUp; Elapse 60000; GraceExpires 2;
         MouseDown; MicDenied 0 None]
        (initial (Some "")) = Some s /\
    connectionRef (app s) = None /\
    connectionStatus (app s) = offline /\
    (forall stamp eff, In (stamp, eff) (log (host s)) ->
       match eff with
       | ListenLive _ _ _ | Send _ _ | Finish _ => False
       | _ => True
       end).
Proof.
  eexists. split; [vm_compute; reflexivity|].
  apply (X5_no_key_no_service (Some "")
           [MouseDown; MicGranted 0 7 webmOnly; MouseUp; Elapse 60000; GraceExpires 2;
            MouseDown; MicDenied 0 None]);
    vm_compute; reflexivity.
Defined.

(** X6: a [startTalking] call made without an API key and without a
    connection fails after the microphone was acquired: the status ends
    offline with the message of the missing key, no connection is opened,
    but the recorder has been built and the capture flag is set although
    the recorder is never started. *)
Theorem X6_start_without_key
    (s : State) (i : nat) (seen : Status) (userStream : StreamId)
    (isTypeSupported : string -> bool) :
  keyMissing (DEEPGRAM_API_KEY (host s)) = true ->
  connectionRef (app s) = None ->
  nth_error (awaitingMic (host s)) i = Some seen ->
  exists s',
    step (MicGranted i userStream isTypeSupported) s = Some s' /\
    connectionStatus (app s') = offline /\
    error (app s') = Some missingKeyMessage /\
    connectionRef (app s') = None /\
    isRecording (mic s') = true /\
    recorder (mic s') = Some (nextId (host s)) /\
    recorderActive (nextId (host s)) s' = false /\
    effects s' =
      effects s ++ [NewMediaRecorder (nextId (host s)) userStream
                      (firstSupported isTypeSupported mimeTypes)].
Proof.
  intros Hkey Hc Hnth. unfold step. rewrite Hnth. cbv zeta.
  unfold startMicrophone_granted, fresh. cbv beta iota zeta.
  eexists. split; [reflexivity|].
  rewrite handleStart_connect_no_key by assumption.
  unfold effects, recorderActive. simpl. rewrite Nat.eqb_refl, map_app.
  repeat split. exact Hc.
Qed.

Lemma X6_start_without_key_witness :
  exists s,
    step MouseDown (initial None) = Some s /\
    exists s',
      step (MicGranted 0 7 webmOnly) s = Some s' /\
      connectionStatus (app s') = offline /\
      error (app s') = Some missingKeyMessage /\
      connectionRef (app s') = None /\
      isRecording (mic s') = true /\
      recorder (mic s') = Some (nextId (host s)) /\
      recorderActive (nextId (host s)) s' = false /\
      effects s' =
        effects s ++ [NewMediaRecorder (nextId (host s)) 7
                        (firstSupported webmOnly mimeTypes)].
Proof.
  eexists. split; [vm_compute; reflexivity|].
  apply (X6_start_without_key _ 0 offline 7 webmOnly); vm_compute; reflexivity.
Defined.

(** * Ensuring a connection *)

Lemma connectionReady_record (r : RecorderId) (s : State) :
  connectionReady (handleStart_record r s) = connectionReady s.
Proof. reflexivity. Qed.

(** X9: when [startTalking] finds a connection handle whose socket is not
    ready while the status it saw is still online, it opens no new
    connection: the recorder is started on the handle it holds, and from
    then on every chunk with data is buffered and none is sent, for as
    long as that socket is not ready. *)
Theorem X9_stale_online_status_reuses_dead_connection
    (s : State) (c : ConnId) (r : RecorderId) (chunks : list Blob) :
  connectionRef (app s) = Some c ->
  isOpen c s = false ->
  let s' := handleStart_connect online r s in
  effects s' = effects s ++ [RecorderStart r 200] /\
  connectionRef (app s') = Some c /\
  connectionStatus (app s') = connectionStatus (app s) /\
  recorderActive r s' = true /\
  effects (feed chunks s') = effects s' /\
  audioBufferRef (app (feed chunks s')) = audioBufferRef (app s) ++ audible chunks.
Proof.
  intros Hc Hclosed s'.
  assert (Hnot : connectionReady s = false).
  { unfold connectionReady. rewrite Hc. exact Hclosed. }
  assert (E : s' = handleStart_record r s).
  { unfold s', handleStart_connect, initConnection. rewrite Hnot, Hc. reflexivity. }
  rewrite E. rewrite (feed_buffering chunks (handleStart_record r s)) by exact Hnot.
  unfold handleStart_record, recorderActive, effects. simpl.
  rewrite Nat.eqb_refl, !map_app. repeat split. exact Hc.
Qed.

Lemma X9_stale_online_status_reuses_dead_connection_witness :
  exists s,
    run (pressAndOpen ++ [SocketState 2 3]) (initial micKey) = Some s /\
    let chunks := [chunk 1; mkBlob 0 2; chunk 3] in
    let s' := handleStart_connect online 9 s in
    effects s' = effects s ++ [RecorderStart 9 200] /\
    connectionRef (app s') = Some 2 /\
    connectionStatus (app s') = connectionStatus (app s) /\
    recorderActive 9 s' = true /\
    effects (feed chunks s') = effects s' /\
    audioBufferRef (app (feed chunks s')) = audioBufferRef (app s) ++ audible chunks.
Proof.
  eexists. split; [vm_compute; reflexivity|].
  apply (X9_stale_online_status_reuses_dead_connection _ 2 9
           [chunk 1; mkBlob 0 2; chunk 3]); vm_compute; reflexivity.
Defined.

(** X10: when [startTalking] has no ready connection and either holds no
    handle or saw a status other than online, it opens exactly one new
    connection with the client built from the API key, stores its handle,
    sets the status to connecting and clears the error; the recorder is
    not started yet, and a connection held before is replaced without
    being finished. *)
Theorem X10_start_opens_one_connection
    (s : State) (seen : Status) (r : RecorderId) (deepgram : Client) :
  getDeepgramClient s = inl deepgram ->
  connectionReady s = false ->
  connectionRef (app s) = None \/ seen <> online ->
  let s' := handleStart_connect seen r s in
  let c := nextId (host s) in
  effects s' = effects s ++ [ListenLive c deepgram fixedOptions] /\
  connectionRef (app s') = Some c /\
  connectionStatus (app s') = connecting /\
  error (app s') = None /\
  readyState (host s') c = Some 0%N /\
  awaitingOpen (host s') = awaitingOpen (host s) ++ [(c, r)] /\
  recorders (host s') = recorders (host s) /\
  mic s' = mic s.
Proof.
  intros Hdg Hnot Hcase s' c.
  assert (Hdg' : getDeepgramClient (setError None (setConnectionStatus connecting s))
                 = inl deepgram) by exact Hdg.
  assert (E : s' =
    awaitingOpen_set (awaitingOpen (host s) ++ [(c, r)])
      (connectionRef_set (Some c)
         (snd (createTranscriptionConnection deepgram
                 (setError None (setConnectionStatus connecting s)))))).
  { unfold s', handleStart_connect, initConnection. rewrite Hnot.
    destruct (connectionRef (app s)) as [c0|] eqn:Hc.
    - destruct seen; try (cbv zeta; rewrite Hdg'; reflexivity).
      destruct Hcase as [Hcase|Hcase]; [discriminate | elim Hcase; reflexivity].
    - cbv zeta. rewrite Hdg'. reflexivity. }
  rewrite E. unfold createTranscriptionConnection, listen_live, fresh, effects, c.
  simpl. rewrite Nat.eqb_refl, map_app. repeat split.
Qed.

Lemma X10_start_opens_one_connection_witness :
  exists s,
    run [MouseDown] (initial micKey) = Some s /\
    let s' := handleStart_connect offline 9 s in
    let c := nextId (host s) in
    effects s' = effects s ++ [ListenLive c (mkClient "key") fixedOptions] /\
    connectionRef (app s') = Some c /\
    connectionStatus (app s') = connecting /\
    error (app s') = None /\
    readyState (host s') c = Some 0%N /\
    awaitingOpen (host s') = awaitingOpen (host s) ++ [(c, 9)] /\
    recorders (host s') = recorders (host s) /\
    mic s' = mic s.
Proof.
  eexists. split; [vm_compute; reflexivity|].
  apply (X10_start_opens_one_connection _ offline 9 (mkClient "key")).
  - vm_compute. reflexivity.
  - vm_compute. reflexivity.
  - left. vm_compute. reflexivity.
Defined.

(** X11: the open event of a connection that a [startTalking] call is
    waiting for completes that call: the status becomes online, a heartbeat
    interval of 5000 ms replaces the previous one, and only then the
    recorder of that call gets its chunk handler and is started with a
    time slice of 200 ms. *)
Theorem X11_open_completes_start
    (s : State) (c : ConnId) (r : RecorderId) (rest : list (ConnId * RecorderId)) :
  connected c s = true ->
  takeAwaiting c (awaitingOpen (host s)) = (Some r, rest) ->
  exists s',
    step (ConnOpen c) s = Some s' /\
    connectionStatus (app s') = online /\
    keepAliveIntervalRef (app s') = Some (nextId (host s)) /\
    effects s' =
      effects s ++ optional ClearInterval (keepAliveIntervalRef (app s))
                ++ [SetInterval (nextId (host s)) 5000; RecorderStart r 200] /\
    awaitingOpen (host s') = rest /\
    recorderActive r s' = true /\
    option_map ondataavailable (recorders (host s') r) = Some true.
Proof.
  intros Hconn Htake. unfold step. rewrite Hconn. eexists. split; [reflexivity|].
  destruct s as [[tr it st er cr ab ct ka] m [nw tos ins rdy recs aM aO nx key lg]].
  unfold resolveOpen, onOpen, startKeepAlive, stopKeepAlive. simpl in Htake.
  destruct ka as [k|]; norm; simpl; rewrite Htake; unfold handleStart_record;
    unfold effects, recorderActive; norm; simpl; rewrite Nat.eqb_refl;
    rewrite !map_app, <- ?app_assoc; simpl; repeat split.
Qed.

Lemma X11_open_completes_start_witness :
  exists s,
    run [MouseDown; MicGranted 0 7 webmOnly; SocketState 2 1] (initial micKey) = Some s /\
    exists s',
      step (ConnOpen 2) s = Some s' /\
      connectionStatus (app s') = online /\
      keepAliveIntervalRef (app s') = Some (nextId (host s)) /\
      effects s' =
        effects s ++ optional ClearInterval (keepAliveIntervalRef (app s))
                  ++ [SetInterval (nextId (host s)) 5000; RecorderStart 1 200] /\
      awaitingOpen (host s') = [] /\
      recorderActive 1 s' = true /\
      option_map ondataavailable (recorders (host s') 1) = Some true.
Proof.
  eexists. split; [vm_compute; reflexivity|].
  apply (X11_open_completes_start _ 2 1 []); vm_compute; reflexivity.
Defined.

(** * Stopping and starting again *)

Lemma removeTimeout_single (t : TimerId) (due : N) : removeTimeout t [(t, due)] = [].
Proof. unfold removeTimeout. simpl. rewrite Nat.eqb_refl. reflexivity. Qed.

Lemma harmless_new_app (t : N) (l1 l2 : list (N * Effect)) :
  Forall (fun entry => harmless (snd entry)) l1 ->
  Forall (fun entry => fst entry = t /\ harmless (snd entry)) l2 ->
  Forall (fun entry => harmless (snd entry)) (l1 ++ l2).
Proof.
  intros H1 H2. apply Forall_app. split; [exact H1|].
  eapply Forall_impl; [|exact H2]. intros entry [_ H]. exact H.
Qed.

(** X7: when [stopTalking] is followed by [startTalking] while the socket
    of the connection held is still open, the press cancels the grace
    timer, and once the microphone is granted the new recorder is started
    at once on the same connection: no connection is opened or finished,
    and the grace timer can no longer fire. *)
Theorem X7_restart_within_grace_reuses_connection
    (key : option string) (before : list Event) (s : State) (c : ConnId)
    (userStream : StreamId) (isTypeSupported : string -> bool) :
  run before (initial key) = Some s ->
  connectionRef (app s) = Some c ->
  isOpen c s = true ->
  awaitingMic (host s) = [] ->
  exists s1 s2 s3 new,
    step MouseUp s = Some s1 /\
    step MouseDown s1 = Some s2 /\
    step (MicGranted 0 userStream isTypeSupported) s2 = Some s3 /\
    timeouts (host s2) = [] /\
    closeTimeoutRef (app s2) = None /\
    connectionRef (app s3) = Some c /\
    log (host s3) = log (host s) ++ new /\
    Forall (fun entry => harmless (snd entry)) new /\
    recorder (mic s3) = Some (nextId (host s2)) /\
    recorderActive (nextId (host s2)) s3 = true /\
    (forall t, step (GraceExpires t) s3 = None).
Proof.
  intros Hreach Hc Hopen Hmic.
  pose proof (run_timers_ok before _ s Hreach (initial_timers_ok key)) as Hok.
  assert (Hready : connectionReady s = true) by (apply (ready_when_open c); assumption).
  destruct (step MouseUp s) as [s1|] eqn:Hup; [|discriminate Hup].
  destruct (step MouseDown s1) as [s2|] eqn:Hdown; [|discriminate Hdown].
  pose proof (step_MouseUp s s1 Hup) as [t1 [new1 [C1 [L1 F1]]]].
  unfold core in C1. injection C1 as Hn1 Ht1 Hct1 Hc1 _.
  rewrite (cleared_when_ok s Hok) in Ht1. simpl in Ht1.
  pose proof (step_MouseDown s1 s2 Hdown) as [C2 L2].
  unfold core in C2. injection C2 as Hn2 Ht2 Hct2 Hc2 _.
  rewrite Hct1, Ht1 in Ht2. unfold cleared in Ht2. rewrite removeTimeout_single in Ht2.
  assert (Hr1 : connectionReady s1 = connectionReady s) by (frame_step connectionReady Hup).
  assert (Hr2 : connectionReady s2 = connectionReady s1)
    by (frame_step connectionReady Hdown).
  assert (Hm1 : awaitingMic (host s1) = awaitingMic (host s))
    by (frame_step (fun s => awaitingMic (host s)) Hup).
  assert (Hm2 : awaitingMic (host s2) = [connectionStatus (app s1)]).
  { unfold step in Hdown. injection Hdown as <-.
    change (awaitingMic (host s1) ++ [connectionStatus (app s1)]
            = [connectionStatus (app s1)]).
    rewrite Hm1, Hmic. reflexivity. }
  set (s2' := snd (startMicrophone_granted userStream isTypeSupported
                     (awaitingMic_set [] s2))).
  assert (Q : quietly s2 s2').
  { eapply quietly_trans; [apply quietly_awaitingMic_set |
                           apply quietly_startMicrophone_granted]. }
  assert (Hr3 : connectionReady s2' = true).
  { unfold s2'.
    rewrite (keeps_startMicrophone_granted connectionReady) by (intros; reflexivity).
    change (connectionReady s2 = true). congruence. }
  assert (Hstep3 : step (MicGranted 0 userStream isTypeSupported) s2 =
                   Some (handleStart_record (nextId (host s2)) s2')).
  { unfold step. rewrite Hm2. cbn [nth_error removeNth]. cbv zeta.
    destruct (startMicrophone_granted userStream isTypeSupported
                (awaitingMic_set [] s2)) as [r s2''] eqn:E.
    assert (Er : r = nextId (host s2)).
    { unfold startMicrophone_granted, fresh in E. simpl in E. injection E as <- _.
      reflexivity. }
    assert (Es : s2'' = s2') by (unfold s2'; first [rewrite E; reflexivity | reflexivity]).
    rewrite Er, Es. unfold handleStart_connect. rewrite Hr3. reflexivity. }
  pose proof (quietly_trans _ _ _ Q (quietly_handleStart_record (nextId (host s2)) s2'))
    as [_ [_ [new3 [L3 F3]]]].
  assert (Ht3 : timeouts (host (handleStart_record (nextId (host s2)) s2'))
                = timeouts (host s2)) by reflexivity.
  assert (Hc3 : connectionRef (app (handleStart_record (nextId (host s2)) s2'))
                = connectionRef (app s2)) by reflexivity.
  exists s1, s2, (handleStart_record (nextId (host s2)) s2'),
    (((new1 ++ at_now s (optional ClearTimeout (closeTimeoutRef (app s))
                         ++ [SetTimeout t1 60000]))
      ++ at_now s1 (optional ClearTimeout (closeTimeoutRef (app s1)) ++ [GetUserMedia]))
     ++ new3).
  split; [first [reflexivity | assumption]|].
  split; [first [reflexivity | assumption]|]. split; [exact Hstep3|].
  split; [exact Ht2|]. split; [exact Hct2|]. split; [congruence|].
  split; [rewrite L3, L2, L1, <- !app_assoc; reflexivity|].
  split; [|split; [|split]].
  - apply (harmless_new_app (now (host s2))); [|exact F3].
    apply Forall_app. split.
    + apply Forall_app. split.
      * eapply Forall_impl; [|exact F1]. intros entry [_ H]. exact H.
      * apply harmless_at_now.
        destruct (closeTimeoutRef (app s)); simpl; repeat constructor.
    + apply harmless_at_now.
      destruct (closeTimeoutRef (app s1)); simpl; repeat constructor.
  - reflexivity.
  - unfold handleStart_record, recorderActive. simpl. rewrite Nat.eqb_refl. reflexivity.
  - intros t. unfold step, dueTime. rewrite Ht3, Ht2. reflexivity.
Qed.

Lemma X7_restart_within_grace_reuses_connection_witness :
  exists s,
    run pressAndOpen (initial micKey) = Some s /\
    exists s1 s2 s3 new,
      step MouseUp s = Some s1 /\
      step MouseDown s1 = Some s2 /\
      step (MicGranted 0 8 webmOnly) s2 = Some s3 /\
      timeouts (host s2) = [] /\
      closeTimeoutRef (app s2) = None /\
      connectionRef (app s3) = Some 2 /\
      log (host s3) = log (host s) ++ new /\
      Forall (fun entry => harmless (snd entry)) new /\
      recorder (mic s3) = Some (nextId (host s2)) /\
      recorderActive (nextId (host s2)) s3 = true /\
      (forall t, step (GraceExpires t) s3 = None).
Proof.
  eexists. split; [vm_compute; reflexivity|].
  apply (X7_restart_within_grace_reuses_connection micKey pressAndOpen _ 2 8 webmOnly);
    vm_compute; reflexivity.
Defined.

(** * Stopping twice *)

Lemma stopMicrophone_cells (s : State) :
  mic (stopMicrophone s) = mkMic None None false (mediaStreamRef (mic s)) /\
  app (stopMicrophone s) = app s /\
  nextId (host (stopMicrophone s)) = nextId (host s) /\
  now (host (stopMicrophone s)) = now (host s).
Proof.
  unfold stopMicrophone, recorderStop, recorderActive.
  destruct (recorder (mic s)) as [r|];
    [destruct (recorders (host s) r) as [[[|] rstr od]|]|];
    destruct (mediaStreamRef (mic s)) as [f|] eqn:Hf;
    simpl; rewrite ?Hf; simpl; rewrite ?Hf; repeat split.
Qed.

Lemma handleStop_cells (s : State) :
  mic (handleStop s) = mkMic None None false (mediaStreamRef (mic s)) /\
  closeTimeoutRef (app (handleStop s)) = Some (nextId (host s)) /\
  nextId (host (handleStop s)) = S (nextId (host s)) /\
  now (host (handleStop s)) = now (host s) /\
  app (handleStop s) =
    mkApp (transcription (app s)) "" (connectionStatus (app s)) (error (app s))
          (connectionRef (app s)) (audioBufferRef (app s)) (Some (nextId (host s)))
          (keepAliveIntervalRef (app s)).
Proof.
  destruct (stopMicrophone_cells s) as [Hm [Ha [Hn Hw]]].
  unfold handleStop. set (s1 := stopMicrophone s) in *. clearbody s1.
  cbv zeta. unfold setTimeout, fresh.
  destruct (closeTimeoutRef (app (setInterimTranscript "" s1))) as [t|];
    cbv beta iota zeta; simpl; rewrite Hm, Ha, Hn, Hw; repeat split.
Qed.

Lemma handleStop_effects_stopped (s : State) :
  recorder (mic s) = None ->
  effects (handleStop s) =
    effects s ++ optional TracksStop (mediaStreamRef (mic s))
              ++ optional ClearTimeout (closeTimeoutRef (app s))
              ++ [SetTimeout (nextId (host s)) 60000].
Proof.
  destruct s as [[tr it st er cr ab ct ka] [ms mr mi mf]
                 [nw tos ins rdy recs aM aO nx key lg]].
  simpl. intros ->.
  destruct mf as [f|], ct as [t|];
    unfold handleStop, stopMicrophone, effects; norm;
    rewrite !map_app, <- ?app_assoc; reflexivity.
Qed.

(** X8: a second [stopTalking] call right after the first stops no
    recorder and changes neither the capture cells nor the transcript,
    status, connection or buffer; it stops the tracks of the last stream
    once more and replaces the pending grace timeout by a new one, so that
    again exactly one timeout is pending, due 60 s after the second call. *)
Theorem X8_stop_twice (key : option string) (before : list Event) (s : State) :
  run before (initial key) = Some s ->
  exists s1,
    step MouseUp s = Some s1 /\
    exists s2 t1 t2,
    step MouseUp s1 = Some s2 /\
    closeTimeoutRef (app s1) = Some t1 /\
    closeTimeoutRef (app s2) = Some t2 /\
    t1 <> t2 /\
    timeouts (host s2) = [(t2, (now (host s1) + 60000)%N)] /\
    mic s2 = mic s1 /\
    app s2 = app (closeTimeoutRef_set (Some t2) s1) /\
    effects s2 =
      effects s1 ++ optional TracksStop (mediaStreamRef (mic s))
                 ++ [ClearTimeout t1; SetTimeout t2 60000].
Proof.
  intros Hreach.
  pose proof (run_timers_ok before _ s Hreach (initial_timers_ok key)) as Hok.
  assert (Hup1 : step MouseUp s = Some (handleStop s)) by reflexivity.
  pose proof (step_timers_ok MouseUp s _ Hup1 Hok) as Hok1.
  destruct (handleStop_cells s) as [Hm1 [Hc1 [Hn1 [_ Ha1]]]].
  exists (handleStop s).
  split; [reflexivity|].
  set (s1 := handleStop s) in *. clearbody s1.
  assert (Hup2 : step MouseUp s1 = Some (handleStop s1)) by reflexivity.
  destruct (handleStop_cells s1) as [Hm2 [Hc2 [_ [_ Ha2]]]].
  pose proof (step_MouseUp _ _ Hup2) as [t2 [new [C _]]].
  set (s2 := handleStop s1) in *. clearbody s2.
  unfold core in C. injection C as _ Ht2 Hc2' _ _.
  rewrite (cleared_when_ok _ Hok1) in Ht2. simpl in Ht2.
  assert (Et2 : t2 = nextId (host s1)) by congruence.
  exists s2, (nextId (host s)), t2.
  split; [exact Hup2|]. split; [exact Hc1|].
  split; [exact Hc2'|]. split; [rewrite Et2, Hn1; lia|]. split; [exact Ht2|].
  split; [rewrite Hm2, Hm1; reflexivity|]. split.
  - rewrite Ha2, Et2. simpl. rewrite Ha1. reflexivity.
  - injection Hup2 as <-.
    rewrite handleStop_effects_stopped by (rewrite Hm1; reflexivity).
    rewrite Hm1, Hc1, Et2. reflexivity.
Qed.

Lemma X8_stop_twice_witness :
  exists s,
    run pressAndOpen (initial micKey) = Some s /\
    exists s1,
      step MouseUp s = Some s1 /\
      exists s2 t1 t2,
      step MouseUp s1 = Some s2 /\
      closeTimeoutRef (app s1) = Some t1 /\
      closeTimeoutRef (app s2) = Some t2 /\
      t1 <> t2 /\
      timeouts (host s2) = [(t2, (now (host s1) + 60000)%N)] /\
      mic s2 = mic s1 /\
      app s2 = app (closeTimeoutRef_set (Some t2) s1) /\
      effects s2 =
        effects s1 ++ optional TracksStop (mediaStreamRef (mic s))
                   ++ [ClearTimeout t1; SetTimeout t2 60000].
Proof.
  eexists. split; [vm_compute; reflexivity|].
  apply (X8_stop_twice micKey pressAndOpen). vm_compute. reflexivity.
Defined.

(** * Trimming *)

Lemma trim_trimList (s : string) :
  Js.trim s = string_of_list_ascii (trimList (list_ascii_of_string s)).
Proof. reflexivity. Qed.

Lemma list_ascii_of_string_app (s1 s2 : string) :
  list_ascii_of_string (s1 ++ s2)%string =
  list_ascii_of_string s1 ++ list_ascii_of_string s2.
Proof. induction s1 as [|a s1 IH]; simpl; [reflexivity | f_equal; exact IH]. Qed.

Lemma drop_clean (l : list ascii) : startsClean l -> Js.dropWhiteSpace l = l.
Proof. destruct l as [|a l]; simpl; [reflexivity|]. intros ->. reflexivity. Qed.

Lemma drop_startsClean (l : list ascii) : startsClean (Js.dropWhiteSpace l).
Proof.
  induction l as [|a l IH]; simpl; [exact I|].
  destruct (Js.isWhiteSpace a) eqn:E; [exact IH | exact E].
Qed.

Lemma drop_suffix (l : list ascii) :
  exists w, l = w ++ Js.dropWhiteSpace l.
Proof.
  induction l as [|a l [w IH]]; simpl; [exists []; reflexivity|].
  destruct (Js.isWhiteSpace a).
  - exists (a :: w). simpl. f_equal. exact IH.
  - exists []. reflexivity.
Qed.

Lemma startsClean_prefix (l1 l2 : list ascii) :
  startsClean (l1 ++ l2) -> startsClean l1.
Proof. destruct l1; simpl; auto. Qed.

Lemma startsClean_app (l1 l2 : list ascii) :
  l1 <> [] -> startsClean l1 -> startsClean (l1 ++ l2).
Proof. destruct l1; simpl; auto. congruence. Qed.

(** The result of [trimList] has no whitespace at either end. *)
Lemma trimList_clean (l : list ascii) :
  startsClean (trimList l) /\ startsClean (rev (trimList l)).
Proof.
  unfold trimList. split.
  - destruct (drop_suffix (rev (Js.dropWhiteSpace l))) as [w Hw].
    apply (startsClean_prefix _ (rev w)).
    rewrite <- rev_app_distr, <- Hw, rev_involutive. apply drop_startsClean.
  - rewrite rev_involutive. apply drop_startsClean.
Qed.

Lemma trimList_fixed (l : list ascii) :
  startsClean l -> startsClean (rev l) -> trimList l = l.
Proof.
  intros H1 H2. unfold trimList.
  rewrite (drop_clean l H1), (drop_clean (rev l) H2). apply rev_involutive.
Qed.

Lemma trimList_idempotent (l : list ascii) : trimList (trimList l) = trimList l.
Proof. apply trimList_fixed; apply trimList_clean. Qed.

Lemma trim_idempotent (s : string) : Js.trim (Js.trim s) = Js.trim s.
Proof.
  rewrite !trim_trimList, list_ascii_of_string_of_list_ascii, trimList_idempotent.
  reflexivity.
Qed.

Lemma trimmed_clean (s : string) :
  trimmed s ->
  startsClean (list_ascii_of_string s) /\ startsClean (rev (list_ascii_of_string s)).
Proof.
  unfold trimmed. rewrite trim_trimList. intros H.
  assert (E : trimList (list_ascii_of_string s) = list_ascii_of_string s).
  { rewrite <- H at 2. rewrite list_ascii_of_string_of_list_ascii. reflexivity. }
  rewrite <- E. apply trimList_clean.
Qed.

Lemma list_nonempty (s : string) : s <> "" -> list_ascii_of_string s <> [].
Proof. destruct s; simpl; congruence. Qed.

Lemma trim_join (prev text : string) :
  trimmed prev -> prev <> "" -> trimmed text -> text <> "" ->
  Js.trim (prev ++ " " ++ text)%string = (prev ++ " " ++ text)%string.
Proof.
  intros Hp Hpne Ht Htne.
  destruct (trimmed_clean prev Hp) as [Hp1 _].
  destruct (trimmed_clean text Ht) as [_ Ht2].
  rewrite trim_trimList, trimList_fixed.
  - apply string_of_list_ascii_of_string.
  - rewrite list_ascii_of_string_app. apply startsClean_app; [|exact Hp1].
    apply list_nonempty, Hpne.
  - rewrite !list_ascii_of_string_app, !rev_app_distr, <- app_assoc.
    apply startsClean_app; [|exact Ht2].
    intros E. apply (f_equal (@rev ascii)) in E. rewrite rev_involutive in E.
    exact (list_nonempty text Htne E).
Qed.

Lemma trim_lead (text : string) :
  trimmed text -> Js.trim ("" ++ " " ++ text)%string = text.
Proof. intros H. exact H. Qed.

(** * The committed transcript *)

Lemma handleResults_cases (data : Results) (s : State) :
  handleResults data s = s \/
  (exists text, is_final data = false /\ transcriptOf data = Some text /\ text <> "" /\
                handleResults data s = setInterimTranscript text s) \/
  (exists text, is_final data = true /\ transcriptOf data = Some text /\ text <> "" /\
                handleResults data s =
                setInterimTranscript ""
                  (setTranscription (fun prev => Js.trim (prev ++ " " ++ text)%string) s)).
Proof.
  unfold handleResults.
  destruct (transcriptOf data) as [text|]; [|left; reflexivity].
  destruct text as [|a text]; [left; reflexivity|]. simpl.
  destruct (is_final data); [right; right | right; left];
    exists (String a text); repeat split; discriminate.
Qed.

Lemma step_transcription (e : Event) (s s' : State) :
  step e s = Some s' ->
  transcription (app s') = transcription (app s) \/
  (e = ClearClicked /\ transcription (app s') = "") \/
  (exists c data text,
     e = ConnResults c data /\ is_final data = true /\
     transcriptOf data = Some text /\ text <> "" /\
     transcription (app s') = Js.trim (transcription (app s) ++ " " ++ text)%string).
Proof.
  intros H.
  destruct e; try (left; frame_step (fun s => transcription (app s)) H).
  - unfold step in H. destruct (connected c s); [|discriminate]. injection H as <-.
    destruct (handleResults_cases data s)
      as [-> | [[text [_ [_ [_ ->]]]] | [text [Hf [Ht [Hne ->]]]]]].
    + left. reflexivity.
    + left. reflexivity.
    + right. right. exists c, data, text. repeat split; assumption.
  - right. left. unfold step in H. injection H as <-. split; reflexivity.
Qed.

(** X13: the committed transcript changes in two ways only.  The Clear
    button empties it.  A final result with non-empty text replaces it by
    the trimmed concatenation of the transcript, one space and the text.
    Every other event, and every interim or empty result, leaves it as it
    is. *)
Theorem X13_what_changes_the_transcript (e : Event) (s s' : State) :
  step e s = Some s' ->
  transcription (app s') =
    match e with
    | ClearClicked => ""
    | ConnResults _ data =>
        match transcriptOf data with
        | Some text =>
            if Js.truthy text && is_final data
            then Js.trim (transcription (app s) ++ " " ++ text)%string
            else transcription (app s)
        | None => transcription (app s)
        end
    | _ => transcription (app s)
    end.
Proof.
  intros H.
  destruct e; try (frame_step (fun s => transcription (app s)) H).
  - unfold step in H. destruct (connected c s); [|discriminate]. injection H as <-.
    unfold handleResults.
    destruct (transcriptOf data) as [text|]; [|reflexivity].
    destruct (Js.truthy text); [|reflexivity].
    destruct (is_final data); reflexivity.
  - unfold step in H. injection H as <-. reflexivity.
Qed.

Lemma X13_what_changes_the_transcript_witness :
  exists s s1 s2,
    run (pressAndOpen ++ [ConnResults 2 (final "hello")]) (initial micKey) = Some s /\
    transcription (app s) = "hello" /\
    step (ConnResults 2 (final "world")) s = Some s1 /\
    transcription (app s1) = Js.trim (transcription (app s) ++ " " ++ "world")%string /\
    step ClearClicked s1 = Some s2 /\
    transcription (app s2) = "".
Proof.
  eexists. eexists. eexists. split; [vm_compute; reflexivity|].
  split; [vm_compute; reflexivity|].
  split; [vm_compute; reflexivity|].
  split.
  - match goal with
    | |- transcription (app ?b) = Js.trim (transcription (app ?a) ++ _)%string =>
        apply (X13_what_changes_the_transcript (ConnResults 2 (final "world")) a b)
    end.
    vm_compute. reflexivity.
  - match goal with
    | |- step ClearClicked ?a = Some _ /\ _ =>
        assert (Hs : step ClearClicked a = Some (clearTranscription a)) by reflexivity;
        split; [exact Hs | exact (X13_what_changes_the_transcript ClearClicked a _ Hs)]
    end.
Defined.

Lemma step_trimmed (e : Event) (s s' : State) :
  step e s = Some s' ->
  trimmed (transcription (app s)) -> trimmed (transcription (app s')).
Proof.
  intros H Ht.
  destruct (step_transcription e s s' H)
    as [-> | [[_ ->] | [c [data [text [_ [_ [_ [_ ->]]]]]]]]].
  - exact Ht.
  - reflexivity.
  - apply trim_idempotent.
Qed.

(** X12: in every state the component can reach, the committed transcript
    has no whitespace at either end, so the text the Copy button writes to
    the clipboard, the trimmed transcript, is the transcript as it is. *)
Theorem X12_copy_writes_the_transcript
    (key : option string) (evs : list Event) (s : State) :
  run evs (initial key) = Some s ->
  Js.trim (transcription (app s)) = transcription (app s) /\
  copiedText s = transcription (app s).
Proof.
  assert (G : forall evs s0 s1,
            run evs s0 = Some s1 ->
            trimmed (transcription (app s0)) -> trimmed (transcription (app s1))).
  { clear. induction evs as [|e evs IH]; intros s0 s1; cbn [run].
    - intros E. injection E as <-. auto.
    - destruct (step e s0) as [s2|] eqn:Hstep; [|discriminate].
      intros Hrun Ht. exact (IH s2 s1 Hrun (step_trimmed e s0 s2 Hstep Ht)). }
  intros Hrun. pose proof (G evs (initial key) s Hrun eq_refl) as Ht.
  split; exact Ht.
Qed.

Lemma X12_copy_writes_the_transcript_witness :
  exists s,
    run (pressAndOpen ++ [ConnResults 2 (final "  hello "); ConnResults 2 (interim "wor");
                          ConnResults 2 (final " world  ")])
        (initial micKey) = Some s /\
    Js.trim (transcription (app s)) = transcription (app s) /\
    copiedText s = transcription (app s).
Proof.
  eexists. split; [vm_compute; reflexivity|].
  apply (X12_copy_writes_the_transcript micKey
           (pressAndOpen ++ [ConnResults 2 (final "  hello "); ConnResults 2 (interim "wor");
                             ConnResults 2 (final " world  ")])).
  vm_compute. reflexivity.
Defined.

(** X14: a final result whose text is non-empty and has no whitespace at
    its ends becomes the committed transcript when that was empty, and is
    appended to it after exactly one space when it was not (and had no
    whitespace at its ends, as in every reachable state); the interim
    transcript is emptied. *)
Theorem X14_final_results_are_joined_by_one_space
    (data : Results) (text : string) (s : State) :
  is_final data = true ->
  transcriptOf data = Some text ->
  text <> "" ->
  Js.trim text = text ->
  Js.trim (transcription (app s)) = transcription (app s) ->
  interimTranscript (app (handleResults data s)) = "" /\
  transcription (app (handleResults data s)) =
    match transcription (app s) with
    | EmptyString => text
    | prev => (prev ++ " " ++ text)%string
    end.
Proof.
  intros Hf Ht Hne Htrim Hprev.
  unfold handleResults. rewrite Ht, (truthy_nonempty text Hne), Hf.
  split; [reflexivity|]. simpl.
  destruct (transcription (app s)) as [|a prev] eqn:Ep.
  - exact Htrim.
  - apply trim_join; auto. discriminate.
Qed.

Lemma X14_final_results_are_joined_by_one_space_witness :
  let s := handleResults (final "hello") (initial None) in
  interimTranscript (app (handleResults (final "big world") s)) = "" /\
  transcription (app (handleResults (final "big world") s)) =
    match transcription (app s) with
    | EmptyString => "big world"
    | prev => (prev ++ " " ++ "big world")%string
    end.
Proof.
  apply (X14_final_results_are_joined_by_one_space (final "big world") "big world"
           (handleResults (final "hello") (initial None)));
    first [reflexivity | discriminate].
Defined.

(** * A refused microphone *)

(** X15: when the microphone is refused, the pending [startTalking] call
    ends in its catch block: the error shown is the message of the
    rejection, or "Failed to start" when that is missing or empty, and the
    status is set to offline whatever the connection is doing.  Nothing
    else happens: no recorder is built, no call is made, and the connection
    held, its heartbeat, the timers and the audio buffer stay as they
    are, so a connection that was ready is still ready under a status
    that reads offline. *)
Theorem X15_refused_microphone
    (s : State) (i : nat) (seen : Status) (message : option string) :
  nth_error (awaitingMic (host s)) i = Some seen ->
  exists s',
    step (MicDenied i message) s = Some s' /\
    connectionStatus (app s') = offline /\
    error (app s') =
      Some match message with
           | Some (String a m) => String a m
           | _ => "Failed to start"
           end /\
    core s' = core s /\
    beat s' = beat s /\
    mic s' = mic s /\
    log (host s') = log (host s) /\
    connectionReady s' = connectionReady s /\
    awaitingMic (host s') = removeNth i (awaitingMic (host s)).
Proof.
  intros Hnth. unfold step. rewrite Hnth. eexists. split; [reflexivity|].
  destruct message as [[|a m]|]; repeat split.
Qed.

Lemma X15_refused_microphone_witness :
  exists s,
    run (pressAndOpen ++ [MouseUp; MouseDown]) (initial micKey) = Some s /\
    connectionReady s = true /\
    exists s',
      step (MicDenied 0 (Some "")) s = Some s' /\
      connectionStatus (app s') = offline /\
      error (app s') = Some "Failed to start" /\
      core s' = core s /\
      beat s' = beat s /\
      mic s' = mic s /\
      log (host s') = log (host s) /\
      connectionReady s' = connectionReady s /\
      awaitingMic (host s') = removeNth 0 (awaitingMic (host s)).
Proof.
  eexists. split; [vm_compute; reflexivity|].
  split; [vm_compute; reflexivity|].
  apply (X15_refused_microphone _ 0 online (Some "")). vm_compute. reflexivity.
Defined.
